(** * Elevator simulation: dispatch algorithm and movement state machine

    Shallow embedding of [src/elevator_sim.cpp]:
    - [Direction], [Request], the [Elevator] class and the [ElevatorSystem]
      class, each field kept under its source name;
    - [Elevator::addTarget], [Elevator::distanceToFloor], [Elevator::isIdle],
      [Elevator::step];
    - [ElevatorSystem::assignRequests], [ElevatorSystem::addRequest],
      [ElevatorSystem::step] and the constructor;
    - [directionToString], the direction letter of [printBuildingView], and
      of [main] the two start-up prompts and the [switch] of the menu loop.

    Modelling conventions.
    - A C++ [int] is an integer of [Z].  Signed overflow is undefined in C++,
      so the embedding describes the executions in which no [int] operation
      leaves the 32-bit range; the one place where the width is visible in
      the program text, [numeric_limits<int>::max()], is [INT_MAX].
    - [deque<int>] and [vector<T>] are lists: [push_back] appends, [front] is
      the head, [pop_front] drops the head, [elevators[i]] is list lookup.
    - Console and log-file output do not influence the state and are left
      out, except that the message printed by [addRequest] is kept as the
      outcome it reports. *)

From Stdlib Require Import ZArith List Lia Bool Ascii String.
From stdpp Require Import base decidable option list.
Import ListNotations.

Open Scope Z_scope.

(** ** Direction *)

Inductive Direction : Set :=
  | Idle
  | Up
  | Down.

#[export] Instance Direction_eq_dec : EqDecision Direction.
Proof. solve_decision. Defined.

(** ** Request *)

Record Request : Set := mkRequest {
  fromFloor : Z;
  toFloor : Z;
  timeRequested : Z
}.

(** [numeric_limits<int>::max()] for the 32-bit [int] of the target. *)
Definition INT_MAX : Z := 2147483647.

(** ** Elevator *)

Module Elevator.

Record t : Set := mk {
  id : Z;
  currentFloor : Z;
  direction : Direction;
  doorOpen : bool;
  targets : list Z;
  totalStopsServed : Z
}.

(** Constructor [Elevator(id_, startFloor)]. *)
Definition new (id_ startFloor : Z) : t :=
  {| id := id_; currentFloor := startFloor; direction := Idle;
     doorOpen := false; targets := []; totalStopsServed := 0 |}.

Definition getQueueSize (e : t) : Z := Z.of_nat (length (targets e)).

(** [targets.back()] is [last], which is [None] exactly on the empty deque. *)
Definition addTarget (e : t) (floor : Z) : t :=
  let push :=
    {| id := id e; currentFloor := currentFloor e; direction := direction e;
       doorOpen := doorOpen e; targets := targets e ++ [floor];
       totalStopsServed := totalStopsServed e |} in
  match last (targets e) with
  | Some back => if back =? floor then e else push
  | None => push
  end.

Definition isIdle (e : t) : bool :=
  bool_decide (targets e = []) && negb (doorOpen e)
  && bool_decide (direction e = Idle).

Definition distanceToFloor (e : t) (floor : Z) : Z :=
  Z.abs (floor - currentFloor e).

(** The three branches of [step], in the order the source tests them. *)

(** Door open: close it and complete the stop. *)
Definition closeDoor (e : t) : t :=
  let targets1 :=
    match targets e with
    | front :: rest => if front =? currentFloor e then rest else targets e
    | [] => []
    end in
  let direction1 :=
    match targets1 with
    | [] => Idle
    | _ :: _ => direction e
    end in
  {| id := id e; currentFloor := currentFloor e; direction := direction1;
     doorOpen := false; targets := targets1;
     totalStopsServed := totalStopsServed e + 1 |}.

(** No targets: stay idle. *)
Definition stayIdle (e : t) : t :=
  {| id := id e; currentFloor := currentFloor e; direction := Idle;
     doorOpen := doorOpen e; targets := targets e;
     totalStopsServed := totalStopsServed e |}.

(** Move toward the first target, or open the door on arrival. *)
Definition moveToward (e : t) (target : Z) : t :=
  if currentFloor e <? target then
    {| id := id e; currentFloor := currentFloor e + 1; direction := Up;
       doorOpen := doorOpen e; targets := targets e;
       totalStopsServed := totalStopsServed e |}
  else if currentFloor e >? target then
    {| id := id e; currentFloor := currentFloor e - 1; direction := Down;
       doorOpen := doorOpen e; targets := targets e;
       totalStopsServed := totalStopsServed e |}
  else
    {| id := id e; currentFloor := currentFloor e; direction := direction e;
       doorOpen := true; targets := targets e;
       totalStopsServed := totalStopsServed e |}.

Definition step (e : t) : t :=
  if doorOpen e then closeDoor e
  else
    match targets e with
    | [] => stayIdle e
    | target :: _ => moveToward e target
    end.

End Elevator.

(** ** ElevatorSystem *)

(** What [addRequest] reports on the console:
    - [OutOfRange]: "Invalid request. Floors must be between 0 and ...";
    - [SameFloor]: "You are already on that floor.";
    - [Added]: "Request added from floor ... to floor ...". *)
Inductive AddOutcome : Set :=
  | OutOfRange
  | SameFloor
  | Added.

Module ElevatorSystem.

Record t : Set := mk {
  numFloors : Z;
  elevators : list Elevator.t;
  pendingRequests : list Request;
  currentTime : Z;
  totalRequestsProcessed : Z
}.

(** Body of the inner loop of [assignRequests] up to the comparison with
    [bestScore]: the score of elevator [e] for request [req]. *)
Definition score (req : Request) (e : Elevator.t) : Z :=
  let dist := Elevator.distanceToFloor e (fromFloor req) in
  let dir := Elevator.direction e in
  let elevFloor := Elevator.currentFloor e in
  let goingSameWay :=
    if bool_decide (dir = Idle) then true
    else if bool_decide (dir = Up) && (fromFloor req >=? elevFloor) then true
    else if bool_decide (dir = Down) && (fromFloor req <=? elevFloor) then true
    else false in
  let score1 :=
    if negb goingSameWay && negb (bool_decide (dir = Idle))
    then dist + 5 else dist in
  score1 + Elevator.getQueueSize e.

(** The inner loop [for (size_t i = 0; i < elevators.size(); ++i)], run on
    the elevators from index [i] on, with the current [(bestIndex, bestScore)]. *)
Fixpoint scan (req : Request) (es : list Elevator.t) (i : nat)
    (best : Z * Z) : Z * Z :=
  match es with
  | [] => best
  | e :: es' =>
      if score req e <? snd best
      then scan req es' (S i) (Z.of_nat i, score req e)
      else scan req es' (S i) best
  end.

(** [bestIndex] once the inner loop is over. *)
Definition bestIndex (req : Request) (es : list Elevator.t) : Z :=
  fst (scan req es 0%nat (-1, INT_MAX)).

(** The two [addTarget] calls made on the chosen elevator. *)
Definition board (req : Request) (chosen : Elevator.t) : Elevator.t :=
  Elevator.addTarget (Elevator.addTarget chosen (fromFloor req)) (toFloor req).

(** The part of the state the outer loop works on. *)
Record Dispatch : Set := mkDispatch {
  d_elevators : list Elevator.t;
  d_stillPending : list Request;
  d_totalRequestsProcessed : Z
}.

(** One iteration of the outer loop [for (const auto& req : pendingRequests)]. *)
Definition assignOne (d : Dispatch) (req : Request) : Dispatch :=
  let b := bestIndex req (d_elevators d) in
  if negb (b =? -1) then
    {| d_elevators := alter (board req) (Z.to_nat b) (d_elevators d);
       d_stillPending := d_stillPending d;
       d_totalRequestsProcessed := d_totalRequestsProcessed d + 1 |}
  else
    {| d_elevators := d_elevators d;
       d_stillPending := d_stillPending d ++ [req];
       d_totalRequestsProcessed := d_totalRequestsProcessed d |}.

Definition dispatch (d : Dispatch) (reqs : list Request) : Dispatch :=
  fold_left assignOne reqs d.

Definition assignRequests (s : t) : t :=
  let d := dispatch
             {| d_elevators := elevators s; d_stillPending := [];
                d_totalRequestsProcessed := totalRequestsProcessed s |}
             (pendingRequests s) in
  {| numFloors := numFloors s;
     elevators := d_elevators d;
     pendingRequests := d_stillPending d;
     currentTime := currentTime s;
     totalRequestsProcessed := d_totalRequestsProcessed d |}.

(** Constructor [ElevatorSystem(floors, numElevators)]: elevator [i] has id
    [i] and starts at floor 0; a count below 1 builds no elevator. *)
Definition new (floors numElevators : Z) : t :=
  {| numFloors := floors;
     elevators :=
       (fun i => Elevator.new i 0) <$> seqZ 0 numElevators;
     pendingRequests := [];
     currentTime := 0;
     totalRequestsProcessed := 0 |}.

Definition addRequest (s : t) (from to : Z) : AddOutcome * t :=
  if (from <? 0) || (from >=? numFloors s)
     || (to <? 0) || (to >=? numFloors s) then (OutOfRange, s)
  else if from =? to then (SameFloor, s)
  else
    (Added,
     {| numFloors := numFloors s;
        elevators := elevators s;
        pendingRequests :=
          pendingRequests s ++ [mkRequest from to (currentTime s)];
        currentTime := currentTime s;
        totalRequestsProcessed := totalRequestsProcessed s |}).

Definition step (s : t) : t :=
  let s1 :=
    {| numFloors := numFloors s;
       elevators := elevators s;
       pendingRequests := pendingRequests s;
       currentTime := currentTime s + 1;
       totalRequestsProcessed := totalRequestsProcessed s |} in
  let s2 := assignRequests s1 in
  {| numFloors := numFloors s2;
     elevators := Elevator.step <$> elevators s2;
     pendingRequests := pendingRequests s2;
     currentTime := currentTime s2;
     totalRequestsProcessed := totalRequestsProcessed s2 |}.

End ElevatorSystem.

(** ** Sequences of invocations

    The menu loop of [main] drives the system through [addRequest] ('r') and
    [step] ('s', and five times for 'a'); a run is a list of such calls. *)

Inductive Op : Set :=
  | SubmitRequest (from to : Z)
  | Tick.

Definition apply (s : ElevatorSystem.t) (o : Op) : ElevatorSystem.t :=
  match o with
  | SubmitRequest from to => snd (ElevatorSystem.addRequest s from to)
  | Tick => ElevatorSystem.step s
  end.

Definition run (ops : list Op) (s : ElevatorSystem.t) : ElevatorSystem.t :=
  fold_left apply ops s.

(** [n] ticks in a row. *)
Definition ticks (n : nat) (s : ElevatorSystem.t) : ElevatorSystem.t :=
  Nat.iter n ElevatorSystem.step s.

(** Specification-side reading of the score, following the wording of the
    dispatch rule: an elevator is compatible with a request when it is Idle,
    or moves Up and the pickup floor is at or above it, or moves Down and the
    pickup floor is at or below it. *)
Definition compatible (req : Request) (e : Elevator.t) : Prop :=
  Elevator.direction e = Idle
  \/ (Elevator.direction e = Up /\ fromFloor req >= Elevator.currentFloor e)
  \/ (Elevator.direction e = Down /\ fromFloor req <= Elevator.currentFloor e).

#[export] Instance compatible_dec req e : Decision (compatible req e).
Proof. unfold compatible. apply _. Defined.


(** The fields of an elevator that [assignRequests] must not touch. *)
Definition same_cab (e e' : Elevator.t) : Prop :=
  Elevator.id e' = Elevator.id e
  /\ Elevator.currentFloor e' = Elevator.currentFloor e
  /\ Elevator.direction e' = Elevator.direction e
  /\ Elevator.doorOpen e' = Elevator.doorOpen e
  /\ Elevator.totalStopsServed e' = Elevator.totalStopsServed e.

(** What [assignRequests] may do to an elevator: keep the cab as it is and
    append to its queue. *)
Definition queued (e e' : Elevator.t) : Prop :=
  same_cab e e' /\ exists more, Elevator.targets e' = Elevator.targets e ++ more.

(** A floor of a building with [n] floors. *)
Definition validFloor (n f : Z) : Prop := 0 <= f <= n - 1.

Definition validElevator (n : Z) (e : Elevator.t) : Prop :=
  validFloor n (Elevator.currentFloor e)
  /\ Forall (validFloor n) (Elevator.targets e).

Definition validRequest (n : Z) (r : Request) : Prop :=
  validFloor n (fromFloor r) /\ validFloor n (toFloor r).

(** Every floor stored in the system is a floor of the building. *)
Definition validSystem (s : ElevatorSystem.t) : Prop :=
  Forall (validElevator (ElevatorSystem.numFloors s))
         (ElevatorSystem.elevators s)
  /\ Forall (validRequest (ElevatorSystem.numFloors s))
            (ElevatorSystem.pendingRequests s).

(** No score that can come up while [reqs] are dispatched over [es] reaches
    [INT_MAX], the initial [bestScore]: each assignment lengthens one queue
    by at most two. *)
Definition belowSentinel (es : list Elevator.t) (reqs : list Request) : Prop :=
  forall e r, e ∈ es -> r ∈ reqs ->
    Elevator.distanceToFloor e (fromFloor r) + 5 + Elevator.getQueueSize e
    + 2 * Z.of_nat (length reqs) < INT_MAX.

(** After [m] calls every queue holds at most two floors per processed
    request, and processed plus pending requests are at most [m]. *)
Definition loadBounded (m : Z) (s : ElevatorSystem.t) : Prop :=
  Forall (fun e => Elevator.getQueueSize e
                   <= 2 * ElevatorSystem.totalRequestsProcessed s)
         (ElevatorSystem.elevators s)
  /\ ElevatorSystem.totalRequestsProcessed s
     + Z.of_nat (length (ElevatorSystem.pendingRequests s)) <= m.

(** The cab counters never go back, and the cab keeps its identity. *)
Definition served_le (e e' : Elevator.t) : Prop :=
  Elevator.id e' = Elevator.id e
  /\ Elevator.totalStopsServed e <= Elevator.totalStopsServed e'.

(** The direction/idle relation between the fields of one elevator. *)
Definition idleInvariant (e : Elevator.t) : Prop :=
  Elevator.direction e = Idle
  <-> (Elevator.targets e = [] /\ Elevator.doorOpen e = false).

(** The greedy-assignment scenario: ten floors, two elevators, request (5,8). *)
Definition scenario : ElevatorSystem.t :=
  snd (ElevatorSystem.addRequest (ElevatorSystem.new 10 2) 5 8).

(** ** The rest of the program *)

(** [directionToString]; the [switch] covers the three enumerators, so the
    trailing [return "Unknown"] is the fall-through of the source. *)
Definition directionToString (d : Direction) : string :=
  match d with
  | Idle => "Idle"
  | Up => "Up"
  | Down => "Down"
  end%string.

(** The letter [dirChar] that [printBuildingView] shows for an elevator. *)
Definition dirChar (d : Direction) : ascii :=
  match d with
  | Up => "U"
  | Down => "D"
  | Idle => "I"
  end%char.

(** The two prompts of [main].  The argument is what [cin >> n] delivered,
    [None] when the extraction failed ([!cin]). *)
Definition chooseFloors (input : option Z) : Z :=
  match input with
  | Some floors => if (floors <? 5) || (floors >? 20) then 10 else floors
  | None => 10
  end.

Definition chooseElevators (input : option Z) : Z :=
  match input with
  | Some numElevators =>
      if (numElevators <? 1) || (numElevators >? 5) then 2 else numElevators
  | None => 2
  end.

(** The system [main] builds from the two answers. *)
Definition mainSystem (floorsInput elevatorsInput : option Z)
    : ElevatorSystem.t :=
  ElevatorSystem.new (chooseFloors floorsInput) (chooseElevators elevatorsInput).

(** The [switch (command)] of the menu loop.  [from] and [to] are the two
    integers read under 'r' and play no role for the other commands.  The
    result carries the new value of [running]. *)
Definition handleCommand (command : ascii) (from to : Z)
    (s : ElevatorSystem.t) : ElevatorSystem.t * bool :=
  if (Ascii.eqb command "r" || Ascii.eqb command "R")%char
  then (snd (ElevatorSystem.addRequest s from to), true)
  else if (Ascii.eqb command "s" || Ascii.eqb command "S")%char
  then (ElevatorSystem.step s, true)
  else if (Ascii.eqb command "a" || Ascii.eqb command "A")%char
  then (ticks 5 s, true)
  else if (Ascii.eqb command "q" || Ascii.eqb command "Q")%char
  then (s, false)
  else (s, true).

(** The menu loop on the commands read so far: it stops at the first command
    that clears [running]; the result is the state then reached, or the
    state in which the loop waits for more input. *)
Fixpoint session (cmds : list (ascii * Z * Z)) (s : ElevatorSystem.t)
    : ElevatorSystem.t :=
  match cmds with
  | [] => s
  | (command, from, to) :: rest =>
      let r := handleCommand command from to s in
      if snd r then session rest (fst r) else fst r
  end.

(** ** Measures and invariants for the further properties *)

(** No two neighbours of the queue are the same floor. *)
Fixpoint noRepeat (q : list Z) : Prop :=
  match q with
  | a :: (b :: _) as rest => a <> b /\ noRepeat rest
  | _ => True
  end.

(** Ticks an elevator standing at [cur] with a closed door needs to work
    through the queue [q]: the way to each target, one tick to open the
    door and one to close it. *)
Fixpoint serviceTicks (cur : Z) (q : list Z) : nat :=
  match q with
  | [] => 0
  | t :: rest => (Z.to_nat (Z.abs (t - cur)) + 2 + serviceTicks t rest)%nat
  end.

(** An open door stands at the front target. *)
Definition doorFront (e : Elevator.t) : Prop :=
  Elevator.doorOpen e = true ->
  head (Elevator.targets e) = Some (Elevator.currentFloor e).

(** Floors an elevator was given so far: those served and those queued. *)
Definition pushed (e : Elevator.t) : Z :=
  Elevator.totalStopsServed e + Elevator.getQueueSize e.

Definition totalPushed (es : list Elevator.t) : Z :=
  foldr (fun e acc => pushed e + acc) 0 es.

(** Whether [addRequest] accepts the call on a building of [n] floors. *)
Definition accepted (n : Z) (o : Op) : bool :=
  match o with
  | SubmitRequest from to =>
      (0 <=? from) && (from <? n) && (0 <=? to) && (to <? n)
      && negb (from =? to)
  | Tick => false
  end.

Definition isTick (o : Op) : bool :=
  match o with
  | Tick => true
  | SubmitRequest _ _ => false
  end.

(** Number of elements of [l] on which [f] holds. *)
Definition countIf {A : Type} (f : A -> bool) (l : list A) : Z :=
  Z.of_nat (length (filter (fun x => f x = true) l)).

(** Bookkeeping of stops: open doors stand at their front target, pending
    requests join two different floors, and the floors given to the
    elevators number between one and two per processed request. *)
Definition accounted (s : ElevatorSystem.t) : Prop :=
  Forall doorFront (ElevatorSystem.elevators s)
  /\ Forall (fun r => fromFloor r <> toFloor r)
            (ElevatorSystem.pendingRequests s)
  /\ ElevatorSystem.totalRequestsProcessed s
     <= totalPushed (ElevatorSystem.elevators s)
     <= 2 * ElevatorSystem.totalRequestsProcessed s.



(** * Properties of a single elevator *)

Section ElevatorFacts.

Import Elevator.

Lemma step_door_open (e : Elevator.t) :
  doorOpen e = true -> step e = closeDoor e.
Proof. intros H. unfold step. now rewrite H. Qed.

Lemma step_no_targets (e : Elevator.t) :
  doorOpen e = false -> targets e = [] -> step e = stayIdle e.
Proof. intros H1 H2. unfold step. now rewrite H1, H2. Qed.

Lemma step_towards (e : Elevator.t) (target : Z) (rest : list Z) :
  doorOpen e = false -> targets e = target :: rest ->
  step e = moveToward e target.
Proof. intros H1 H2. unfold step. now rewrite H1, H2. Qed.

(** After a step an empty queue comes with a closed door and direction Idle. *)
Lemma step_empty_idle (e : Elevator.t) :
  targets (step e) = [] ->
  direction (step e) = Idle /\ doorOpen (step e) = false.
Proof.
  unfold step. destruct (doorOpen e) eqn:Hd.
  - unfold closeDoor; simpl. intros ->. auto.
  - destruct (targets e) as [|t ts] eqn:Ht.
    + unfold stayIdle; simpl. auto.
    + unfold moveToward.
      destruct (currentFloor e <? t); [simpl; congruence|].
      destruct (currentFloor e >? t); simpl; congruence.
Qed.

(** After a step an open door means the cab stands at the front target. *)
Lemma step_open_front (e : Elevator.t) :
  doorOpen (step e) = true ->
  exists rest, targets (step e) = currentFloor (step e) :: rest.
Proof.
  unfold step. destruct (doorOpen e) eqn:Hd.
  - unfold closeDoor; simpl. discriminate.
  - destruct (targets e) as [|t ts] eqn:Ht.
    + unfold stayIdle; simpl. congruence.
    + unfold moveToward.
      destruct (currentFloor e <? t) eqn:Hlt; [simpl; congruence|].
      destruct (currentFloor e >? t) eqn:Hgt; [simpl; congruence|].
      simpl. intros _. exists ts. rewrite Ht. f_equal. lia.
Qed.

Lemma step_stops_mono (e : Elevator.t) :
  totalStopsServed e <= totalStopsServed (step e).
Proof.
  unfold step. destruct (doorOpen e).
  - unfold closeDoor; simpl. lia.
  - destruct (targets e) as [|t ts].
    + unfold stayIdle; simpl. lia.
    + unfold moveToward.
      destruct (currentFloor e <? t); [simpl; lia|].
      destruct (currentFloor e >? t); simpl; lia.
Qed.

Lemma step_id (e : Elevator.t) : id (step e) = id e.
Proof.
  unfold step. destruct (doorOpen e).
  - reflexivity.
  - destruct (targets e) as [|t ts]; [reflexivity|].
    unfold moveToward.
    destruct (currentFloor e <? t); [reflexivity|].
    destruct (currentFloor e >? t); reflexivity.
Qed.

End ElevatorFacts.

(** * Queue insertion *)

Section AddTargetFacts.

Import Elevator.

Lemma addTarget_targets (e : Elevator.t) (floor : Z) :
  targets (addTarget e floor) =
    if decide (last (targets e) = Some floor)
    then targets e else targets e ++ [floor].
Proof.
  unfold addTarget. destruct (last (targets e)) as [b|] eqn:Hl.
  - destruct (Z.eqb_spec b floor) as [->|Hne].
    + now rewrite decide_True.
    + rewrite decide_False by congruence. reflexivity.
  - rewrite decide_False by discriminate. reflexivity.
Qed.

Lemma addTarget_same_cab (e : Elevator.t) (floor : Z) :
  same_cab e (addTarget e floor).
Proof.
  unfold addTarget, same_cab.
  destruct (last (targets e)) as [b|]; [destruct (b =? floor)|]; simpl; auto.
Qed.

Lemma addTarget_queued (e : Elevator.t) (floor : Z) :
  queued e (addTarget e floor).
Proof.
  split; [apply addTarget_same_cab|].
  rewrite addTarget_targets. case_decide.
  - exists []. now rewrite app_nil_r.
  - now exists [floor].
Qed.

Lemma addTarget_size (e : Elevator.t) (floor : Z) :
  getQueueSize e <= getQueueSize (addTarget e floor) <= getQueueSize e + 1.
Proof.
  unfold getQueueSize. rewrite addTarget_targets. case_decide.
  - lia.
  - rewrite length_app. simpl. lia.
Qed.

Lemma addTarget_valid (n : Z) (e : Elevator.t) (floor : Z) :
  validFloor n floor -> validElevator n e -> validElevator n (addTarget e floor).
Proof.
  intros Hf [Hc Ht]. split.
  - destruct (addTarget_same_cab e floor) as (_ & -> & _). exact Hc.
  - rewrite addTarget_targets. case_decide; [exact Ht|].
    apply Forall_app. split; [exact Ht|]. now constructor.
Qed.

End AddTargetFacts.

Lemma same_cab_refl (e : Elevator.t) : same_cab e e.
Proof. unfold same_cab. auto. Qed.

Lemma same_cab_trans (e1 e2 e3 : Elevator.t) :
  same_cab e1 e2 -> same_cab e2 e3 -> same_cab e1 e3.
Proof. unfold same_cab. intuition congruence. Qed.

Lemma queued_refl (e : Elevator.t) : queued e e.
Proof. split; [apply same_cab_refl|]. exists []. now rewrite app_nil_r. Qed.

Lemma queued_trans (e1 e2 e3 : Elevator.t) :
  queued e1 e2 -> queued e2 e3 -> queued e1 e3.
Proof.
  intros [H12 [m1 E1]] [H23 [m2 E2]]. split.
  - eapply same_cab_trans; eassumption.
  - exists (m1 ++ m2). rewrite E2, E1. now rewrite app_assoc.
Qed.

Lemma board_queued (req : Request) (e : Elevator.t) :
  queued e (ElevatorSystem.board req e).
Proof.
  unfold ElevatorSystem.board.
  eapply queued_trans; apply addTarget_queued.
Qed.

Lemma board_size (req : Request) (e : Elevator.t) :
  Elevator.getQueueSize (ElevatorSystem.board req e)
  <= Elevator.getQueueSize e + 2.
Proof.
  unfold ElevatorSystem.board.
  pose proof (addTarget_size e (fromFloor req)).
  pose proof (addTarget_size (Elevator.addTarget e (fromFloor req)) (toFloor req)).
  lia.
Qed.

Lemma board_valid (n : Z) (req : Request) (e : Elevator.t) :
  validRequest n req -> validElevator n e ->
  validElevator n (ElevatorSystem.board req e).
Proof.
  intros [Hf Ht] He. unfold ElevatorSystem.board.
  now apply addTarget_valid; [|apply addTarget_valid].
Qed.

(** Pickup before destination: what the two pushes leave in the queue when
    the two floors differ. *)
Lemma board_targets (req : Request) (e : Elevator.t) :
  fromFloor req <> toFloor req ->
  Elevator.targets (ElevatorSystem.board req e) =
    if decide (last (Elevator.targets e) = Some (fromFloor req))
    then Elevator.targets e ++ [toFloor req]
    else Elevator.targets e ++ [fromFloor req; toFloor req].
Proof.
  intros Hne. unfold ElevatorSystem.board.
  rewrite addTarget_targets, addTarget_targets.
  destruct (decide (last (Elevator.targets e) = Some (fromFloor req))) as [Hl|Hl].
  - rewrite decide_False; [reflexivity|]. rewrite Hl. congruence.
  - rewrite last_snoc. rewrite decide_False by congruence.
    now rewrite <- app_assoc.
Qed.

(** * The dispatch loops *)

Section DispatchFacts.

Import ElevatorSystem.


Lemma score_bound (req : Request) (e : Elevator.t) :
  score req e
  <= Elevator.distanceToFloor e (fromFloor req) + 5 + Elevator.getQueueSize e.
Proof.
  unfold score.
  destruct (negb _ && negb _); lia.
Qed.

(** The inner loop either keeps the pair it started from, because no score
    beats it, or ends on the first elevator of least score. *)
Lemma scan_spec (req : Request) (es : list Elevator.t) :
  forall (i : nat) (bi bs : Z),
    (scan req es i (bi, bs) = (bi, bs)
     /\ forall e, e ∈ es -> bs <= score req e)
    \/ exists (k : nat) (chosen : Elevator.t),
         es !! k = Some chosen
         /\ scan req es i (bi, bs) = (Z.of_nat (i + k), score req chosen)
         /\ score req chosen < bs
         /\ (forall j e, es !! j = Some e -> score req chosen <= score req e)
         /\ (forall j e, es !! j = Some e -> (j < k)%nat ->
               score req chosen < score req e).
Proof.
  induction es as [|e es IH]; intros i bi bs; simpl.
  - left. split; [reflexivity|]. intros e He. inversion He.
  - destruct (Z.ltb_spec (score req e) bs) as [Hlt|Hge].
    + right. destruct (IH (S i) (Z.of_nat i) (score req e))
        as [[Heq Hall]|(k & c & Hk & Heq & Hc & Hmin & Hfirst)].
      * exists 0%nat, e. rewrite Heq, Nat.add_0_r.
        repeat split; auto.
        -- intros [|j] e' Hj; simpl in Hj.
           ++ injection Hj as <-. lia.
           ++ apply Hall. apply list_elem_of_lookup. eauto.
        -- intros j e' _ Hj. lia.
      * exists (S k), c. rewrite Heq.
        replace (S i + k)%nat with (i + S k)%nat by lia.
        repeat split; auto; [lia| |].
        -- intros [|j] e' Hj; simpl in Hj.
           ++ injection Hj as <-. lia.
           ++ eapply Hmin; eassumption.
        -- intros [|j] e' Hj Hlt'; simpl in Hj.
           ++ injection Hj as <-. lia.
           ++ eapply Hfirst; [eassumption|lia].
    + destruct (IH (S i) bi bs)
        as [[Heq Hall]|(k & c & Hk & Heq & Hc & Hmin & Hfirst)].
      * left. split; [exact Heq|].
        intros e' He'. apply elem_of_cons in He' as [->|He']; auto.
      * right. exists (S k), c. rewrite Heq.
        replace (S i + k)%nat with (i + S k)%nat by lia.
        repeat split; auto.
        -- intros [|j] e' Hj; simpl in Hj.
           ++ injection Hj as <-. lia.
           ++ eapply Hmin; eassumption.
        -- intros [|j] e' Hj Hlt'; simpl in Hj.
           ++ injection Hj as <-. lia.
           ++ eapply Hfirst; [eassumption|lia].
Qed.

(** [bestIndex] stays at -1 exactly when no score is below [INT_MAX]. *)
Lemma bestIndex_none (req : Request) (es : list Elevator.t) :
  (forall e, e ∈ es -> INT_MAX <= score req e) -> bestIndex req es = -1.
Proof.
  intros Hall. unfold bestIndex.
  destruct (scan_spec req es 0 (-1) INT_MAX)
    as [[-> _]|(k & c & Hk & _ & Hc & _)]; [reflexivity|].
  assert (c ∈ es) as Hin by (apply list_elem_of_lookup; eauto).
  specialize (Hall c Hin). lia.
Qed.

Lemma bestIndex_some (req : Request) (es : list Elevator.t) (e0 : Elevator.t) :
  e0 ∈ es -> score req e0 < INT_MAX ->
  exists (k : nat) (chosen : Elevator.t),
    es !! k = Some chosen
    /\ bestIndex req es = Z.of_nat k
    /\ (forall j e, es !! j = Some e -> score req chosen <= score req e)
    /\ (forall j e, es !! j = Some e -> (j < k)%nat ->
          score req chosen < score req e).
Proof.
  intros Hin Hlt. unfold bestIndex.
  destruct (scan_spec req es 0 (-1) INT_MAX)
    as [[_ Hall]|(k & c & Hk & -> & Hc & Hmin & Hfirst)].
  - specialize (Hall e0 Hin). lia.
  - exists k, c. simpl. auto.
Qed.

(** With no elevator the loop body never runs. *)
Lemma bestIndex_nil (req : Request) : bestIndex req [] = -1.
Proof. reflexivity. Qed.

(** One iteration of the outer loop, when an elevator is chosen. *)
Lemma assignOne_chosen (d : Dispatch) (req : Request) (k : nat) :
  bestIndex req (d_elevators d) = Z.of_nat k ->
  assignOne d req =
    {| d_elevators := alter (board req) k (d_elevators d);
       d_stillPending := d_stillPending d;
       d_totalRequestsProcessed := d_totalRequestsProcessed d + 1 |}.
Proof.
  intros Hb. unfold assignOne. rewrite Hb.
  destruct (Z.eqb_spec (Z.of_nat k) (-1)) as [H|_]; [lia|].
  simpl. now rewrite Nat2Z.id.
Qed.

Lemma assignOne_none (d : Dispatch) (req : Request) :
  bestIndex req (d_elevators d) = -1 ->
  assignOne d req =
    {| d_elevators := d_elevators d;
       d_stillPending := d_stillPending d ++ [req];
       d_totalRequestsProcessed := d_totalRequestsProcessed d |}.
Proof. intros Hb. unfold assignOne. now rewrite Hb. Qed.

(** Whatever the outcome, one iteration only appends to queues. *)
Lemma assignOne_queued (d : Dispatch) (req : Request) :
  Forall2 queued (d_elevators d) (d_elevators (assignOne d req)).
Proof.
  unfold assignOne. destruct (negb _); simpl.
  - apply Forall2_alter_r.
    + apply Forall_Forall2_diag, Forall_forall. intros; apply queued_refl.
    + intros x y _ _ H. eapply queued_trans; [exact H|apply board_queued].
  - apply Forall_Forall2_diag, Forall_forall. intros; apply queued_refl.
Qed.

Lemma assignOne_count (d : Dispatch) (req : Request) :
  d_totalRequestsProcessed d <= d_totalRequestsProcessed (assignOne d req).
Proof. unfold assignOne. destruct (negb _); simpl; lia. Qed.

Lemma dispatch_queued (reqs : list Request) :
  forall d, Forall2 queued (d_elevators d) (d_elevators (dispatch d reqs)).
Proof.
  induction reqs as [|req reqs IH]; intros d; simpl.
  - apply Forall_Forall2_diag, Forall_forall. intros; apply queued_refl.
  - eapply Forall2_trans; [|apply assignOne_queued|apply IH].
    intros x y z. apply queued_trans.
Qed.

Lemma dispatch_count (reqs : list Request) :
  forall d,
    d_totalRequestsProcessed d <= d_totalRequestsProcessed (dispatch d reqs).
Proof.
  induction reqs as [|req reqs IH]; intros d; simpl; [lia|].
  etransitivity; [apply assignOne_count|apply IH].
Qed.

End DispatchFacts.

Section DispatchRuns.

Import ElevatorSystem.

Lemma elem_of_alter_board (req : Request) (k : nat) (es : list Elevator.t)
    (e' : Elevator.t) :
  e' ∈ alter (board req) k es -> e' ∈ es \/ exists e, e ∈ es /\ e' = board req e.
Proof.
  intros Hin. apply list_elem_of_lookup in Hin as [j Hj].
  rewrite list_lookup_alter in Hj. case_decide as Hkj.
  - subst k. destruct (es !! j) as [e|] eqn:He; simplify_eq/=.
    right. exists e. split; [|reflexivity]. apply list_elem_of_lookup; eauto.
  - left. apply list_elem_of_lookup; eauto.
Qed.

Lemma belowSentinel_step (req : Request) (reqs : list Request) (k : nat)
    (es : list Elevator.t) :
  belowSentinel es (req :: reqs) ->
  belowSentinel (alter (board req) k es) reqs.
Proof.
  intros H e' r He' Hr.
  assert (r ∈ req :: reqs) as Hr' by (now apply elem_of_cons; right).
  apply elem_of_alter_board in He' as [He'|(e & He & ->)].
  - specialize (H e' r He' Hr'). simpl length in H. lia.
  - specialize (H e r He Hr'). simpl length in H.
    pose proof (board_size req e) as Hs.
    destruct (board_queued req e) as [(_ & Hc & _) _].
    unfold Elevator.distanceToFloor in *. rewrite Hc. lia.
Qed.

(** With a fleet and scores below the sentinel every request is assigned. *)
Lemma dispatch_all_assigned (reqs : list Request) :
  forall d,
    d_elevators d <> [] ->
    belowSentinel (d_elevators d) reqs ->
    d_stillPending (dispatch d reqs) = d_stillPending d
    /\ d_totalRequestsProcessed (dispatch d reqs)
       = d_totalRequestsProcessed d + Z.of_nat (length reqs).
Proof.
  induction reqs as [|req reqs IH]; intros d Hne Hb.
  - simpl. split; [reflexivity|lia].
  - destruct (d_elevators d) as [|e0 es] eqn:Hes; [congruence|].
    assert (e0 ∈ e0 :: es) as Hin by apply list_elem_of_here.
    assert (score req e0 < INT_MAX) as Hlt.
    { pose proof (score_bound req e0).
      pose proof (Hb e0 req Hin (list_elem_of_here _ _)). lia. }
    destruct (bestIndex_some req (e0 :: es) e0 Hin Hlt) as (k & c & _ & Hk & _).
    rewrite <- Hes in Hk, Hb.
    change (dispatch d (req :: reqs)) with (dispatch (assignOne d req) reqs).
    rewrite (assignOne_chosen d req k Hk).
    edestruct IH as [E1 E2]; [| |rewrite E1, E2; simpl].
    + simpl. intros Hnil. apply (f_equal length) in Hnil.
      rewrite length_alter, Hes in Hnil. discriminate.
    + simpl. now apply belowSentinel_step.
    + split; [reflexivity|lia].
Qed.

(** With no elevator every request stays pending, in submission order. *)
Lemma dispatch_empty_fleet (reqs : list Request) :
  forall d,
    d_elevators d = [] ->
    dispatch d reqs =
      {| d_elevators := [];
         d_stillPending := d_stillPending d ++ reqs;
         d_totalRequestsProcessed := d_totalRequestsProcessed d |}.
Proof.
  induction reqs as [|req reqs IH]; intros d Hd.
  - simpl. rewrite app_nil_r. destruct d; simpl in *. now subst.
  - change (dispatch d (req :: reqs)) with (dispatch (assignOne d req) reqs).
    rewrite assignOne_none by (rewrite Hd; apply bestIndex_nil).
    rewrite IH by exact Hd. simpl. now rewrite <- app_assoc.
Qed.

Lemma assignOne_valid (n : Z) (d : Dispatch) (req : Request) :
  validRequest n req ->
  Forall (validElevator n) (d_elevators d) ->
  Forall (validRequest n) (d_stillPending d) ->
  Forall (validElevator n) (d_elevators (assignOne d req))
  /\ Forall (validRequest n) (d_stillPending (assignOne d req)).
Proof.
  intros Hr He Hp. unfold assignOne. destruct (negb _); simpl.
  - split; [|exact Hp]. apply Forall_alter; [exact He|].
    intros x _ Hx. now apply board_valid.
  - split; [exact He|]. apply Forall_app. split; [exact Hp|]. now constructor.
Qed.

Lemma dispatch_valid (n : Z) (reqs : list Request) :
  forall d,
    Forall (validRequest n) reqs ->
    Forall (validElevator n) (d_elevators d) ->
    Forall (validRequest n) (d_stillPending d) ->
    Forall (validElevator n) (d_elevators (dispatch d reqs))
    /\ Forall (validRequest n) (d_stillPending (dispatch d reqs)).
Proof.
  induction reqs as [|req reqs IH]; intros d Hr He Hp; [now split|].
  apply Forall_cons in Hr as [Hreq Hr].
  destruct (assignOne_valid n d req Hreq He Hp) as [He' Hp'].
  now apply IH.
Qed.

End DispatchRuns.

(** * Validity of floors along a run *)

Lemma elevator_step_valid (n : Z) (e : Elevator.t) :
  validElevator n e -> validElevator n (Elevator.step e).
Proof.
  intros [Hc Ht]. unfold validFloor in Hc. unfold Elevator.step.
  destruct (Elevator.doorOpen e).
  - unfold Elevator.closeDoor. split; simpl; [exact Hc|].
    destruct (Elevator.targets e) as [|t ts]; [constructor|].
    destruct (t =? Elevator.currentFloor e); [|exact Ht].
    now apply Forall_cons in Ht as [_ Ht].
  - destruct (Elevator.targets e) as [|t ts] eqn:Hq.
    + split; simpl; [exact Hc|]. rewrite Hq. constructor.
    + apply Forall_cons in Ht as [Hft Hts]. unfold validFloor in Hft.
      unfold Elevator.moveToward.
      destruct (Z.ltb_spec (Elevator.currentFloor e) t).
      * split; simpl; [unfold validFloor; lia|].
        rewrite Hq. now constructor.
      * destruct (Z.gtb_spec (Elevator.currentFloor e) t).
        -- split; simpl; [unfold validFloor; lia|].
           rewrite Hq. now constructor.
        -- split; simpl; [exact Hc|]. rewrite Hq. now constructor.
Qed.

Lemma assignRequests_valid (s : ElevatorSystem.t) :
  validSystem s -> validSystem (ElevatorSystem.assignRequests s).
Proof.
  intros [He Hp]. unfold validSystem, ElevatorSystem.assignRequests. simpl.
  apply dispatch_valid; simpl; auto.
Qed.

Lemma assignRequests_numFloors (s : ElevatorSystem.t) :
  ElevatorSystem.numFloors (ElevatorSystem.assignRequests s)
  = ElevatorSystem.numFloors s.
Proof. reflexivity. Qed.

Lemma system_step_valid (s : ElevatorSystem.t) :
  validSystem s -> validSystem (ElevatorSystem.step s).
Proof.
  intros [He Hp]. unfold ElevatorSystem.step.
  match goal with
  | |- context [ElevatorSystem.assignRequests ?s1] =>
      destruct (assignRequests_valid s1) as [He' Hp']; [now split|]
  end.
  split; simpl in *; [|exact Hp'].
  apply Forall_fmap. eapply Forall_impl; [exact He'|].
  intros e. apply elevator_step_valid.
Qed.

Lemma addRequest_valid (s : ElevatorSystem.t) (from to : Z) :
  validSystem s -> validSystem (snd (ElevatorSystem.addRequest s from to)).
Proof.
  intros [He Hp]. unfold ElevatorSystem.addRequest.
  destruct (_ || _) eqn:Hrange; [now split|].
  destruct (from =? to); [now split|].
  split; simpl; [exact He|].
  apply Forall_app. split; [exact Hp|]. constructor; [|constructor].
  repeat (apply orb_false_elim in Hrange as [Hrange ?]).
  unfold validRequest, validFloor. simpl. lia.
Qed.

Lemma apply_valid (s : ElevatorSystem.t) (o : Op) :
  validSystem s -> validSystem (apply s o).
Proof.
  destruct o; simpl; [apply addRequest_valid|apply system_step_valid].
Qed.

Lemma run_valid (ops : list Op) :
  forall s, validSystem s -> validSystem (run ops s).
Proof.
  induction ops as [|o ops IH]; intros s Hs; simpl; [exact Hs|].
  apply IH, apply_valid, Hs.
Qed.

Lemma apply_numFloors (s : ElevatorSystem.t) (o : Op) :
  ElevatorSystem.numFloors (apply s o) = ElevatorSystem.numFloors s.
Proof.
  destruct o; simpl; [|reflexivity].
  unfold ElevatorSystem.addRequest.
  destruct (_ || _); [reflexivity|]. destruct (from =? to); reflexivity.
Qed.

Lemma run_numFloors (ops : list Op) :
  forall s, ElevatorSystem.numFloors (run ops s) = ElevatorSystem.numFloors s.
Proof.
  induction ops as [|o ops IH]; intros s; simpl; [reflexivity|].
  unfold run in IH. now rewrite IH, apply_numFloors.
Qed.

Lemma new_valid (floors numElevators : Z) :
  1 <= floors -> validSystem (ElevatorSystem.new floors numElevators).
Proof.
  intros Hf. split; simpl; [|constructor].
  apply Forall_fmap, Forall_forall. intros i _.
  split; simpl; [unfold validFloor; lia|constructor].
Qed.

(** * Counters along a run *)

Lemma served_le_refl (e : Elevator.t) : served_le e e.
Proof. split; [reflexivity|lia]. Qed.

Lemma served_le_trans (e1 e2 e3 : Elevator.t) :
  served_le e1 e2 -> served_le e2 e3 -> served_le e1 e3.
Proof. intros [I1 L1] [I2 L2]. split; [congruence|lia]. Qed.

Lemma queued_served_le (e e' : Elevator.t) : queued e e' -> served_le e e'.
Proof. intros [(Hi & _ & _ & _ & Hs) _]. split; [exact Hi|lia]. Qed.

Lemma Forall2_diag_refl {A : Type} (R : A -> A -> Prop) (l : list A) :
  (forall x, R x x) -> Forall2 R l l.
Proof. intros HR. apply Forall_Forall2_diag, Forall_forall. auto. Qed.

Lemma assignRequests_queued (s : ElevatorSystem.t) :
  Forall2 queued (ElevatorSystem.elevators s)
          (ElevatorSystem.elevators (ElevatorSystem.assignRequests s)).
Proof.
  unfold ElevatorSystem.assignRequests. simpl.
  match goal with
  | |- context [ElevatorSystem.dispatch ?d _] =>
      exact (dispatch_queued (ElevatorSystem.pendingRequests s) d)
  end.
Qed.

Lemma assignRequests_count (s : ElevatorSystem.t) :
  ElevatorSystem.totalRequestsProcessed s
  <= ElevatorSystem.totalRequestsProcessed (ElevatorSystem.assignRequests s).
Proof.
  unfold ElevatorSystem.assignRequests. simpl.
  match goal with
  | |- context [ElevatorSystem.dispatch ?d _] =>
      exact (dispatch_count (ElevatorSystem.pendingRequests s) d)
  end.
Qed.

Lemma system_step_served (s : ElevatorSystem.t) :
  Forall2 served_le (ElevatorSystem.elevators s)
          (ElevatorSystem.elevators (ElevatorSystem.step s)).
Proof.
  unfold ElevatorSystem.step.
  match goal with
  | |- context [ElevatorSystem.assignRequests ?s1] =>
      pose proof (assignRequests_queued s1) as Hq
  end.
  simpl in *. apply Forall2_fmap_r. eapply Forall2_impl; [exact Hq|].
  intros e e' Hee'. simpl.
  eapply served_le_trans; [apply queued_served_le, Hee'|].
  split; [apply step_id|apply step_stops_mono].
Qed.

Lemma system_step_count (s : ElevatorSystem.t) :
  ElevatorSystem.totalRequestsProcessed s
  <= ElevatorSystem.totalRequestsProcessed (ElevatorSystem.step s).
Proof.
  unfold ElevatorSystem.step.
  match goal with
  | |- context [ElevatorSystem.assignRequests ?s1] =>
      exact (assignRequests_count s1)
  end.
Qed.

Lemma addRequest_elevators (s : ElevatorSystem.t) (from to : Z) :
  ElevatorSystem.elevators (snd (ElevatorSystem.addRequest s from to))
  = ElevatorSystem.elevators s
  /\ ElevatorSystem.totalRequestsProcessed
       (snd (ElevatorSystem.addRequest s from to))
     = ElevatorSystem.totalRequestsProcessed s.
Proof.
  unfold ElevatorSystem.addRequest.
  destruct (_ || _); [now split|]. destruct (from =? to); now split.
Qed.

Lemma apply_served (s : ElevatorSystem.t) (o : Op) :
  Forall2 served_le (ElevatorSystem.elevators s)
          (ElevatorSystem.elevators (apply s o))
  /\ ElevatorSystem.totalRequestsProcessed s
     <= ElevatorSystem.totalRequestsProcessed (apply s o).
Proof.
  destruct o; simpl.
  - destruct (addRequest_elevators s from to) as [-> ->].
    split; [apply Forall2_diag_refl, served_le_refl|lia].
  - split; [apply system_step_served|apply system_step_count].
Qed.

Lemma run_served (ops : list Op) :
  forall s,
    Forall2 served_le (ElevatorSystem.elevators s)
            (ElevatorSystem.elevators (run ops s))
    /\ ElevatorSystem.totalRequestsProcessed s
       <= ElevatorSystem.totalRequestsProcessed (run ops s).
Proof.
  induction ops as [|o ops IH]; intros s; simpl.
  - split; [apply Forall2_diag_refl, served_le_refl|lia].
  - destruct (apply_served s o) as [H1 H2].
    destruct (IH (apply s o)) as [H3 H4]. split; [|unfold run in *; lia].
    eapply Forall2_trans; [|exact H1|exact H3].
    intros x y z. apply served_le_trans.
Qed.

(** * Scores stay far from the sentinel along a run *)

Lemma assignOne_load (d : ElevatorSystem.Dispatch) (req : Request) :
  Forall (fun e => Elevator.getQueueSize e
                   <= 2 * ElevatorSystem.d_totalRequestsProcessed d)
         (ElevatorSystem.d_elevators d) ->
  Forall (fun e => Elevator.getQueueSize e
                   <= 2 * ElevatorSystem.d_totalRequestsProcessed
                          (ElevatorSystem.assignOne d req))
         (ElevatorSystem.d_elevators (ElevatorSystem.assignOne d req))
  /\ ElevatorSystem.d_totalRequestsProcessed (ElevatorSystem.assignOne d req)
     + Z.of_nat (length (ElevatorSystem.d_stillPending
                           (ElevatorSystem.assignOne d req)))
     = ElevatorSystem.d_totalRequestsProcessed d
       + Z.of_nat (length (ElevatorSystem.d_stillPending d)) + 1.
Proof.
  intros H. unfold ElevatorSystem.assignOne. destruct (negb _); simpl.
  - split; [|lia]. rewrite Forall_forall in *. intros e' He'.
    apply elem_of_alter_board in He' as [He'|(e & He & ->)].
    + specialize (H e' He'). lia.
    + specialize (H e He). pose proof (board_size req e). lia.
  - split; [exact H|]. rewrite length_app. simpl. lia.
Qed.

Lemma dispatch_load (reqs : list Request) :
  forall d,
    Forall (fun e => Elevator.getQueueSize e
                     <= 2 * ElevatorSystem.d_totalRequestsProcessed d)
           (ElevatorSystem.d_elevators d) ->
    Forall (fun e => Elevator.getQueueSize e
                     <= 2 * ElevatorSystem.d_totalRequestsProcessed
                            (ElevatorSystem.dispatch d reqs))
           (ElevatorSystem.d_elevators (ElevatorSystem.dispatch d reqs))
    /\ ElevatorSystem.d_totalRequestsProcessed (ElevatorSystem.dispatch d reqs)
       + Z.of_nat (length (ElevatorSystem.d_stillPending
                             (ElevatorSystem.dispatch d reqs)))
       = ElevatorSystem.d_totalRequestsProcessed d
         + Z.of_nat (length (ElevatorSystem.d_stillPending d))
         + Z.of_nat (length reqs).
Proof.
  induction reqs as [|req reqs IH]; intros d H.
  - simpl. split; [exact H|lia].
  - destruct (assignOne_load d req H) as [H1 H2].
    destruct (IH _ H1) as [H3 H4].
    change (ElevatorSystem.dispatch d (req :: reqs))
      with (ElevatorSystem.dispatch (ElevatorSystem.assignOne d req) reqs).
    split; [exact H3|]. rewrite H4, H2. simpl length. lia.
Qed.

Lemma elevator_step_size (e : Elevator.t) :
  Elevator.getQueueSize (Elevator.step e) <= Elevator.getQueueSize e.
Proof.
  unfold Elevator.getQueueSize, Elevator.step.
  destruct (Elevator.doorOpen e).
  - unfold Elevator.closeDoor; cbn [Elevator.targets].
    destruct (Elevator.targets e) as [|t ts]; [lia|].
    destruct (t =? Elevator.currentFloor e); [|lia].
    rewrite length_cons. lia.
  - destruct (Elevator.targets e) as [|t ts] eqn:Hq.
    + cbn [Elevator.stayIdle Elevator.targets]. rewrite Hq. lia.
    + unfold Elevator.moveToward.
      destruct (Elevator.currentFloor e <? t);
        [|destruct (Elevator.currentFloor e >? t)];
        cbn [Elevator.targets]; rewrite Hq; lia.
Qed.

Lemma apply_load (m : Z) (s : ElevatorSystem.t) (o : Op) :
  loadBounded m s -> loadBounded (m + 1) (apply s o).
Proof.
  intros [Hq Hm]. destruct o; simpl.
  - unfold ElevatorSystem.addRequest.
    destruct (_ || _); [split; simpl; [exact Hq|lia]|].
    destruct (from =? to); [split; simpl; [exact Hq|lia]|].
    split; simpl; [exact Hq|]. rewrite length_app. simpl length. lia.
  - unfold loadBounded, ElevatorSystem.step, ElevatorSystem.assignRequests.
    simpl.
    match goal with
    | |- context [ElevatorSystem.dispatch ?d _] =>
        destruct (dispatch_load (ElevatorSystem.pendingRequests s) d Hq)
          as [H1 H2]
    end.
    simpl in H2. split; [|lia].
    apply Forall_fmap. eapply Forall_impl; [exact H1|].
    intros e He. simpl in *. pose proof (elevator_step_size e). lia.
Qed.

Lemma run_load (ops : list Op) :
  forall m s,
    loadBounded m s -> loadBounded (m + Z.of_nat (length ops)) (run ops s).
Proof.
  induction ops as [|o ops IH]; intros m s H.
  - simpl. now rewrite Z.add_0_r.
  - change (run (o :: ops) s) with (run ops (apply s o)).
    replace (m + Z.of_nat (length (o :: ops)))
      with (m + 1 + Z.of_nat (length ops)) by (rewrite length_cons; lia).
    apply IH, apply_load, H.
Qed.

(** On a building of [floors] floors, after the calls [ops], the scores
    cannot reach [INT_MAX] as long as [floors + 4 + 2 * length ops] does
    not. *)
Lemma run_belowSentinel (floors numElevators : Z) (ops : list Op) :
  1 <= floors ->
  floors + 4 + 2 * Z.of_nat (length ops) < INT_MAX ->
  belowSentinel
    (ElevatorSystem.elevators (run ops (ElevatorSystem.new floors numElevators)))
    (ElevatorSystem.pendingRequests
       (run ops (ElevatorSystem.new floors numElevators))).
Proof.
  intros Hf Hb e r He Hr.
  pose proof (run_valid ops _ (new_valid floors numElevators Hf)) as [Hve Hvr].
  rewrite run_numFloors in Hve, Hvr. simpl in Hve, Hvr.
  assert (loadBounded 0 (ElevatorSystem.new floors numElevators)) as H0.
  { split; simpl; [|lia]. apply Forall_fmap, Forall_forall. intros i _.
    simpl. unfold Elevator.getQueueSize. simpl. lia. }
  apply (run_load ops) in H0 as [Hq Hm].
  destruct (proj1 (Forall_forall _ _) Hve e He) as [Hc _].
  destruct (proj1 (Forall_forall _ _) Hvr r Hr) as [Hr1 _].
  pose proof (proj1 (Forall_forall _ _) Hq e He) as Hqe. simpl in Hqe.
  unfold validFloor in *. unfold Elevator.distanceToFloor. lia.
Qed.

(** * The claims *)

Lemma system_step_elevator (s : ElevatorSystem.t) (e : Elevator.t) :
  e ∈ ElevatorSystem.elevators (ElevatorSystem.step s) ->
  exists e0, e = Elevator.step e0.
Proof.
  unfold ElevatorSystem.step. simpl. intros He.
  apply list_elem_of_fmap in He as (e0 & -> & _). now exists e0.
Qed.

(** C1, as stated, fails: on a ten-floor building with one elevator, a
    request from floor 0 (where the idle elevator stands) makes the first
    tick open the door; the elevator is then still Idle, with the queue
    [0; 5] and the door open. *)
Lemma C1_idle_iff_counterexample :
  ~ Forall idleInvariant
      (ElevatorSystem.elevators
         (run [SubmitRequest 0 5; Tick] (ElevatorSystem.new 10 1))).
Proof.
  vm_compute. intros H. apply Forall_cons in H as [[H _] _].
  destruct (H eq_refl) as [H1 _]. discriminate H1.
Qed.

(** C1, amended: for every elevator, after every tick, if the target queue
    is empty and the door is closed then the direction is Idle. *)
Theorem C1_idle_when_queue_empty (s : ElevatorSystem.t) (e : Elevator.t) :
  e ∈ ElevatorSystem.elevators (ElevatorSystem.step s) ->
  Elevator.targets e = [] /\ Elevator.doorOpen e = false ->
  Elevator.direction e = Idle.
Proof.
  intros He [Hq _]. apply system_step_elevator in He as [e0 ->].
  now apply step_empty_idle.
Qed.

Lemma C1_idle_when_queue_empty_witness :
  Elevator.direction (Elevator.new 0 0) = Idle.
Proof.
  apply (C1_idle_when_queue_empty (ElevatorSystem.new 10 1)).
  - vm_compute. apply list_elem_of_here.
  - split; reflexivity.
Defined.

(** C3: [step] runs exactly one of three branches, tested in order.  With the
    door open it closes the door, counts the stop, pops the front target when
    it is the current floor, turns Idle when the queue is then empty, and
    does not move.  With the door closed and no target it only turns Idle.
    Otherwise it moves one floor toward the front target, or opens the door
    when it stands there.  Hence the dwell: an elevator standing at its front
    target opens the door on the first tick, closes it on the second, both
    without moving, and moves toward the next target on the third. *)
Theorem C3_step_branches_and_dwell (e : Elevator.t) :
  (Elevator.doorOpen e = true ->
     Elevator.doorOpen (Elevator.step e) = false
     /\ Elevator.totalStopsServed (Elevator.step e)
        = Elevator.totalStopsServed e + 1
     /\ Elevator.currentFloor (Elevator.step e) = Elevator.currentFloor e
     /\ Elevator.targets (Elevator.step e)
        = (if decide (head (Elevator.targets e)
                      = Some (Elevator.currentFloor e))
           then tail (Elevator.targets e) else Elevator.targets e)
     /\ Elevator.direction (Elevator.step e)
        = (if decide (Elevator.targets (Elevator.step e) = [])
           then Idle else Elevator.direction e))
  /\ (Elevator.doorOpen e = false -> Elevator.targets e = [] ->
        Elevator.step e
        = Elevator.mk (Elevator.id e) (Elevator.currentFloor e) Idle false []
                      (Elevator.totalStopsServed e))
  /\ (forall t rest,
        Elevator.doorOpen e = false -> Elevator.targets e = t :: rest ->
        Elevator.targets (Elevator.step e) = t :: rest
        /\ Elevator.totalStopsServed (Elevator.step e)
           = Elevator.totalStopsServed e
        /\ (Elevator.currentFloor e < t ->
              Elevator.currentFloor (Elevator.step e)
              = Elevator.currentFloor e + 1
              /\ Elevator.direction (Elevator.step e) = Up
              /\ Elevator.doorOpen (Elevator.step e) = false)
        /\ (Elevator.currentFloor e > t ->
              Elevator.currentFloor (Elevator.step e)
              = Elevator.currentFloor e - 1
              /\ Elevator.direction (Elevator.step e) = Down
              /\ Elevator.doorOpen (Elevator.step e) = false)
        /\ (Elevator.currentFloor e = t ->
              Elevator.currentFloor (Elevator.step e) = t
              /\ Elevator.direction (Elevator.step e) = Elevator.direction e
              /\ Elevator.doorOpen (Elevator.step e) = true))
  /\ (forall t rest,
        Elevator.doorOpen e = false -> Elevator.targets e = t :: rest ->
        Elevator.currentFloor e = t ->
        let e1 := Elevator.step e in
        let e2 := Elevator.step e1 in
        let e3 := Elevator.step e2 in
        (Elevator.doorOpen e1 = true /\ Elevator.currentFloor e1 = t
         /\ Elevator.targets e1 = t :: rest
         /\ Elevator.totalStopsServed e1 = Elevator.totalStopsServed e)
        /\ (Elevator.doorOpen e2 = false /\ Elevator.currentFloor e2 = t
            /\ Elevator.targets e2 = rest
            /\ Elevator.totalStopsServed e2 = Elevator.totalStopsServed e + 1)
        /\ (forall t2 rest2, rest = t2 :: rest2 -> t2 <> t ->
              Elevator.doorOpen e3 = false
              /\ Elevator.targets e3 = rest
              /\ Elevator.currentFloor e3 = (if t <? t2 then t + 1 else t - 1)
              /\ Elevator.direction e3 = (if t <? t2 then Up else Down))).
Proof.
  split; [|split; [|split]].
  - intros Hd. rewrite (step_door_open e Hd). unfold Elevator.closeDoor. simpl.
    split; [reflexivity|]. split; [reflexivity|]. split; [reflexivity|].
    split.
    + destruct (Elevator.targets e) as [|f r]; [reflexivity|].
      change (head (f :: r)) with (Some f). change (tail (f :: r)) with r.
      destruct (Z.eqb_spec f (Elevator.currentFloor e)) as [->|Hne].
      * now rewrite decide_True.
      * rewrite decide_False by congruence. reflexivity.
    + match goal with
      | |- match ?q with [] => _ | _ :: _ => _ end = _ => destruct q
      end.
      * now rewrite decide_True.
      * now rewrite decide_False by discriminate.
  - intros Hd Hq. rewrite (step_no_targets e Hd Hq).
    unfold Elevator.stayIdle. now rewrite Hd, Hq.
  - intros t rest Hd Hq. rewrite (step_towards e t rest Hd Hq).
    unfold Elevator.moveToward.
    destruct (Z.ltb_spec (Elevator.currentFloor e) t);
      [|destruct (Z.gtb_spec (Elevator.currentFloor e) t)];
      simpl; rewrite ?Hd, ?Hq; repeat split; lia.
  - intros t rest Hd Hq Hc e1 e2 e3.
    assert (e1 = Elevator.mk (Elevator.id e) t (Elevator.direction e) true
                             (t :: rest) (Elevator.totalStopsServed e)) as E1.
    { subst e1. rewrite (step_towards e t rest Hd Hq).
      unfold Elevator.moveToward. rewrite Hc, Z.ltb_irrefl, Hq.
      destruct (Z.gtb_spec t t); [lia|reflexivity]. }
    assert (Elevator.doorOpen e2 = false /\ Elevator.currentFloor e2 = t
            /\ Elevator.targets e2 = rest
            /\ Elevator.totalStopsServed e2 = Elevator.totalStopsServed e + 1)
      as E2.
    { subst e2. rewrite E1. unfold Elevator.step, Elevator.closeDoor. simpl.
      rewrite Z.eqb_refl. auto. }
    split; [rewrite E1; simpl; auto|]. split; [exact E2|].
    intros t2 rest2 Hr Hne. destruct E2 as (D2 & C2 & Q2 & _).
    subst e3. rewrite (step_towards e2 t2 rest2 D2) by congruence.
    unfold Elevator.moveToward. rewrite C2.
    destruct (Z.ltb_spec t t2); simpl; [rewrite D2, Q2; auto|].
    destruct (Z.gtb_spec t t2); [|lia]. simpl. rewrite D2, Q2. auto.
Qed.

Lemma C3_step_branches_and_dwell_witness :
  (let e := Elevator.mk 0 5 Up true [5; 8] 0 in
   Elevator.doorOpen (Elevator.step e) = false
   /\ Elevator.totalStopsServed (Elevator.step e) = 1
   /\ Elevator.currentFloor (Elevator.step e) = 5
   /\ Elevator.targets (Elevator.step e) = [8]
   /\ Elevator.direction (Elevator.step e) = Up)
  /\ (let e := Elevator.mk 0 5 Up false [5; 8] 0 in
      let e3 := Elevator.step (Elevator.step (Elevator.step e)) in
      Elevator.doorOpen e3 = false /\ Elevator.targets e3 = [8]
      /\ Elevator.currentFloor e3 = 6 /\ Elevator.direction e3 = Up).
Proof.
  split.
  - exact (proj1 (C3_step_branches_and_dwell (Elevator.mk 0 5 Up true [5; 8] 0))
                 eq_refl).
  - refine (proj2 (proj2 (proj2 (proj2 (proj2
              (C3_step_branches_and_dwell (Elevator.mk 0 5 Up false [5; 8] 0))))
              5 [8] eq_refl eq_refl eq_refl)) 8 [] eq_refl _).
    discriminate.
Defined.

(** C5: for every elevator, after every tick, an open door means that the
    target queue is not empty and that its front is the current floor. *)
Theorem C5_open_door_at_front (s : ElevatorSystem.t) (e : Elevator.t) :
  e ∈ ElevatorSystem.elevators (ElevatorSystem.step s) ->
  Elevator.doorOpen e = true ->
  Elevator.targets e <> []
  /\ head (Elevator.targets e) = Some (Elevator.currentFloor e).
Proof.
  intros He Hd. apply system_step_elevator in He as [e0 ->].
  destruct (step_open_front e0 Hd) as [rest ->]. split; [discriminate|].
  reflexivity.
Qed.

Lemma C5_open_door_at_front_witness :
  [0; 5] <> [] /\ head [0; 5] = Some 0.
Proof.
  apply (C5_open_door_at_front
           (snd (ElevatorSystem.addRequest (ElevatorSystem.new 10 1) 0 5))
           (Elevator.mk 0 0 Idle true [0; 5] 0)).
  - vm_compute. apply list_elem_of_here.
  - reflexivity.
Defined.

(** C4: [addRequest] with a floor outside [0, numFloors-1] reports
    OutOfRange, with two equal floors in range it reports SameFloor, and in
    both cases the system is left as it was; otherwise it appends exactly one
    request, stamped with the current time, and changes nothing else. *)
Theorem C4_addRequest_validation (s : ElevatorSystem.t) (from to : Z) :
  (~ validFloor (ElevatorSystem.numFloors s) from
   \/ ~ validFloor (ElevatorSystem.numFloors s) to ->
     ElevatorSystem.addRequest s from to = (OutOfRange, s))
  /\ (validFloor (ElevatorSystem.numFloors s) from ->
      validFloor (ElevatorSystem.numFloors s) to ->
      from = to ->
      ElevatorSystem.addRequest s from to = (SameFloor, s))
  /\ (validFloor (ElevatorSystem.numFloors s) from ->
      validFloor (ElevatorSystem.numFloors s) to ->
      from <> to ->
      ElevatorSystem.addRequest s from to =
        (Added,
         ElevatorSystem.mk
           (ElevatorSystem.numFloors s)
           (ElevatorSystem.elevators s)
           (ElevatorSystem.pendingRequests s
              ++ [mkRequest from to (ElevatorSystem.currentTime s)])
           (ElevatorSystem.currentTime s)
           (ElevatorSystem.totalRequestsProcessed s))).
Proof.
  unfold validFloor, ElevatorSystem.addRequest.
  destruct (Z.ltb_spec from 0); destruct (Z.geb_spec from (ElevatorSystem.numFloors s));
    destruct (Z.ltb_spec to 0); destruct (Z.geb_spec to (ElevatorSystem.numFloors s));
    simpl; try (repeat split; intros; (reflexivity || lia)).
  destruct (Z.eqb_spec from to); repeat split; intros; (reflexivity || lia).
Qed.

Lemma C4_addRequest_validation_witness :
  let s := ElevatorSystem.new 10 2 in
  ElevatorSystem.addRequest s (-1) 3 = (OutOfRange, s)
  /\ ElevatorSystem.addRequest s 4 4 = (SameFloor, s)
  /\ ElevatorSystem.pendingRequests (snd (ElevatorSystem.addRequest s 5 8))
     = [mkRequest 5 8 0].
Proof.
  intros s. split; [|split].
  - apply (proj1 (C4_addRequest_validation s (-1) 3)).
    left. unfold validFloor. simpl. lia.
  - apply (proj1 (proj2 (C4_addRequest_validation s 4 4)));
      unfold validFloor; simpl; lia.
  - rewrite (proj2 (proj2 (C4_addRequest_validation s 5 8))).
    + reflexivity.
    + unfold validFloor; simpl; lia.
    + unfold validFloor; simpl; lia.
    + discriminate.
Defined.

(** C6: on a system built with at least one floor, after any sequence of
    [addRequest] and [step] calls, and also right after the dispatch phase
    of a further tick, every elevator stands on a floor of [0, numFloors-1]. *)
Theorem C6_current_floor_in_range (floors numElevators : Z) (ops : list Op)
    (e : Elevator.t) :
  1 <= floors ->
  e ∈ ElevatorSystem.elevators (run ops (ElevatorSystem.new floors numElevators))
  \/ e ∈ ElevatorSystem.elevators
         (ElevatorSystem.assignRequests
            (run ops (ElevatorSystem.new floors numElevators))) ->
  0 <= Elevator.currentFloor e <= floors - 1.
Proof.
  intros Hf He.
  pose proof (run_valid ops _ (new_valid floors numElevators Hf)) as Hv.
  pose proof (assignRequests_valid _ Hv) as Hv'.
  destruct Hv as [Hv _]. destruct Hv' as [Hv' _].
  rewrite assignRequests_numFloors in Hv'.
  rewrite run_numFloors in Hv, Hv'. simpl in Hv, Hv'.
  rewrite Forall_forall in Hv, Hv'.
  destruct He as [He|He]; [apply Hv in He|apply Hv' in He];
    destruct He as [Hc _]; exact Hc.
Qed.

Lemma C6_current_floor_in_range_witness :
  0 <= Elevator.currentFloor (Elevator.mk 0 2 Up false [5; 8] 0) <= 10 - 1.
Proof.
  apply (C6_current_floor_in_range 10 2 [SubmitRequest 5 8; Tick; Tick]).
  - lia.
  - left. vm_compute. apply list_elem_of_here.
Defined.

(** C8: ten floors, two elevators idle at floor 0, request (5,8).  Both
    elevators score 5, and the first is chosen.  After the first tick
    elevator 0 has the queue [5; 8] and one request is processed; five ticks
    later (four moves after the one made in the first tick, then the opening
    of the door) it stands at floor 5 with the door open and no stop counted
    yet; the tick after that counts its first stop. *)
Theorem C8_greedy_scenario :
  let req := mkRequest 5 8 0 in
  let s1 := ticks 1 scenario in
  let s6 := ticks 5 s1 in
  let s7 := ticks 1 s6 in
  ElevatorSystem.pendingRequests scenario = [req]
  /\ ElevatorSystem.score req <$> ElevatorSystem.elevators scenario = [5; 5]
  /\ ElevatorSystem.bestIndex req (ElevatorSystem.elevators scenario) = 0
  /\ Elevator.targets <$> ElevatorSystem.elevators s1 = [[5; 8]; []]
  /\ ElevatorSystem.totalRequestsProcessed s1 = 1
  /\ ElevatorSystem.pendingRequests s1 = []
  /\ (exists e, ElevatorSystem.elevators s6 !! 0%nat = Some e
        /\ Elevator.currentFloor e = 5 /\ Elevator.doorOpen e = true
        /\ Elevator.totalStopsServed e = 0)
  /\ (exists e, ElevatorSystem.elevators s7 !! 0%nat = Some e
        /\ Elevator.totalStopsServed e = 1).
Proof.
  vm_compute. repeat split; eauto 10.
Qed.





(** * Further properties of a single elevator *)

Section QueueDiscipline.

Import Elevator.

(** X1: after [addTarget e floor] the back of the queue is [floor], the
    queue has grown by at most one, and calling it again with the same floor
    changes nothing. *)
Theorem addTarget_back_idempotent (e : Elevator.t) (floor : Z) :
  last (targets (addTarget e floor)) = Some floor
  /\ addTarget (addTarget e floor) floor = addTarget e floor
  /\ getQueueSize e <= getQueueSize (addTarget e floor) <= getQueueSize e + 1.
Proof.
  assert (last (targets (addTarget e floor)) = Some floor) as Hback.
  { rewrite addTarget_targets. case_decide; [assumption|apply last_snoc]. }
  split; [exact Hback|]. split; [|apply addTarget_size].
  unfold addTarget at 1. rewrite Hback, Z.eqb_refl. reflexivity.
Qed.

Lemma noRepeat_tail (a : Z) (q : list Z) : noRepeat (a :: q) -> noRepeat q.
Proof. destruct q; simpl; tauto. Qed.

Lemma noRepeat_snoc (q : list Z) (floor : Z) :
  noRepeat q -> last q <> Some floor -> noRepeat (q ++ [floor]).
Proof.
  induction q as [|a q IH]; intros Hq Hl; [exact I|].
  destruct q as [|b q].
  - simpl in *. split; [congruence|exact I].
  - destruct Hq as [Hab Hq]. split; [exact Hab|].
    apply IH; [exact Hq|]. now rewrite last_cons_cons in Hl.
Qed.

Lemma addTarget_noRepeat (e : Elevator.t) (floor : Z) :
  noRepeat (targets e) -> noRepeat (targets (addTarget e floor)).
Proof.
  intros Hq. rewrite addTarget_targets. case_decide; [exact Hq|].
  now apply noRepeat_snoc.
Qed.

Lemma step_targets_suffix (e : Elevator.t) :
  targets (step e) = targets e \/ targets (step e) = tail (targets e).
Proof.
  unfold step. destruct (doorOpen e).
  - unfold closeDoor; simpl. destruct (targets e) as [|t q]; [now left|].
    destruct (t =? currentFloor e); [now right|now left].
  - destruct (targets e) as [|t q] eqn:Hq.
    + left. simpl. now rewrite Hq.
    + left. unfold moveToward.
      destruct (currentFloor e <? t); [|destruct (currentFloor e >? t)];
        simpl; now rewrite Hq.
Qed.

Lemma step_noRepeat (e : Elevator.t) :
  noRepeat (targets e) -> noRepeat (targets (step e)).
Proof.
  intros Hq. destruct (step_targets_suffix e) as [->| ->]; [exact Hq|].
  destruct (targets e) as [|a q]; [exact I|]. now apply noRepeat_tail in Hq.
Qed.

Lemma addTarget_doorFront (e : Elevator.t) (floor : Z) :
  doorFront e -> doorFront (addTarget e floor).
Proof.
  unfold doorFront. intros H Hd.
  destruct (addTarget_same_cab e floor) as (_ & Hc & _ & Ho & _).
  rewrite Ho in Hd. specialize (H Hd). rewrite Hc, addTarget_targets.
  case_decide; [exact H|].
  destruct (targets e); [discriminate|exact H].
Qed.

Lemma step_doorFront (e : Elevator.t) : doorFront (step e).
Proof.
  intros Hd. destruct (step_open_front e Hd) as [rest ->]. reflexivity.
Qed.

End QueueDiscipline.

Section Movement.

Import Elevator.

(** X2: in one tick the cab moves by at most one floor; it stays where it
    is when the door is open before the tick or after it; and when it moves
    it comes one floor closer to the front target, with the door closed and
    the direction set to the way it went. *)
Theorem step_moves_one_floor (e : Elevator.t) :
  Z.abs (currentFloor (step e) - currentFloor e) <= 1
  /\ (doorOpen e = true \/ doorOpen (step e) = true ->
      currentFloor (step e) = currentFloor e)
  /\ (currentFloor (step e) <> currentFloor e ->
      doorOpen (step e) = false
      /\ direction (step e)
         = (if currentFloor e <? currentFloor (step e) then Up else Down)
      /\ exists t rest,
           targets e = t :: rest
           /\ distanceToFloor (step e) t = distanceToFloor e t - 1).
Proof.
  unfold step, distanceToFloor. destruct (doorOpen e) eqn:Hd.
  - unfold closeDoor; simpl. repeat split; intros; (lia || congruence).
  - destruct (targets e) as [|t q] eqn:Hq.
    + unfold stayIdle; simpl. repeat split; intros; (lia || congruence).
    + unfold moveToward.
      destruct (Z.ltb_spec (currentFloor e) t);
        [|destruct (Z.gtb_spec (currentFloor e) t)]; simpl; rewrite ?Hd.
      * split; [lia|]. split; [intros [?|?]; discriminate|].
        intros _. split; [reflexivity|]. split.
        -- destruct (Z.ltb_spec (currentFloor e) (currentFloor e + 1));
             [reflexivity|lia].
        -- exists t, q. split; [reflexivity|lia].
      * split; [lia|]. split; [intros [?|?]; discriminate|].
        intros _. split; [reflexivity|]. split.
        -- destruct (Z.ltb_spec (currentFloor e) (currentFloor e - 1));
             [lia|reflexivity].
        -- exists t, q. split; [reflexivity|lia].
      * repeat split; intros; (lia || congruence).
Qed.

(** X3: an elevator for which [isIdle] holds is left exactly as it is by
    [step]; and after any step [isIdle] holds if and only if the queue is
    empty. *)
Theorem isIdle_step (e : Elevator.t) :
  (isIdle e = true -> step e = e)
  /\ (isIdle (step e) = true <-> targets (step e) = []).
Proof.
  split.
  - unfold isIdle. intros H.
    apply andb_true_iff in H as [H Hdir]. apply andb_true_iff in H as [Hq Hd].
    apply bool_decide_eq_true in Hq. apply bool_decide_eq_true in Hdir.
    apply negb_true_iff in Hd.
    rewrite (step_no_targets e Hd Hq). unfold stayIdle.
    destruct e; simpl in *. now subst.
  - unfold isIdle. split.
    + intros H. apply andb_true_iff in H as [H _].
      apply andb_true_iff in H as [Hq _]. now apply bool_decide_eq_true in Hq.
    + intros Hq. destruct (step_empty_idle e Hq) as [Hdir Hd].
      rewrite Hd, (bool_decide_eq_true_2 _ Hq), (bool_decide_eq_true_2 _ Hdir).
      reflexivity.
Qed.

Lemma isIdle_step_witness :
  step (Elevator.new 3 7) = Elevator.new 3 7.
Proof. apply (proj1 (isIdle_step (Elevator.new 3 7))). reflexivity. Defined.

(** The way to the front target: [n] floors and [n] ticks. *)
Lemma travel (n : nat) :
  forall (e : Elevator.t) (t : Z) (rest : list Z),
    doorOpen e = false -> targets e = t :: rest ->
    Z.abs (t - currentFloor e) = Z.of_nat n ->
    let e' := Nat.iter n step e in
    currentFloor e' = t /\ doorOpen e' = false /\ targets e' = t :: rest
    /\ totalStopsServed e' = totalStopsServed e /\ id e' = id e
    /\ (n <> 0%nat ->
        direction e' = if currentFloor e <? t then Up else Down).
Proof.
  induction n as [|n IH]; intros e t rest Hd Hq Hn; simpl.
  - repeat split; auto; [lia|congruence].
  - rewrite <- Nat.iter_succ, Nat.iter_succ_r.
    assert (doorOpen (step e) = false /\ targets (step e) = t :: rest
            /\ Z.abs (t - currentFloor (step e)) = Z.of_nat n
            /\ totalStopsServed (step e) = totalStopsServed e
            /\ id (step e) = id e
            /\ direction (step e) = (if currentFloor e <? t then Up else Down)
            /\ (n <> 0%nat ->
                (currentFloor (step e) <? t) = (currentFloor e <? t)))
      as (Hd1 & Hq1 & Hn1 & Hs1 & Hi1 & Hdir1 & Hside).
    { rewrite (step_towards e t rest Hd Hq). unfold moveToward.
      destruct (Z.ltb_spec (currentFloor e) t);
        [|destruct (Z.gtb_spec (currentFloor e) t)]; [| |lia];
        simpl; rewrite Hd, Hq;
        (split; [reflexivity|]); (split; [reflexivity|]); (split; [lia|]);
        (split; [reflexivity|]); (split; [reflexivity|]);
        (split; [reflexivity|]); intros Hn0.
      - apply Z.ltb_lt. lia.
      - apply Z.ltb_ge. lia. }
    destruct (IH (step e) t rest Hd1 Hq1 Hn1) as (H1 & H2 & H3 & H4 & H5 & H6).
    repeat split; auto; [congruence|congruence|].
    intros _. destruct n as [|n]; [exact Hdir1|].
    rewrite H6 by discriminate. rewrite Hside by discriminate. reflexivity.
Qed.

(** The dwell at a target: one tick opens the door, the next closes it. *)
Lemma dwell_two_steps (e : Elevator.t) (t : Z) (rest : list Z) :
  doorOpen e = false -> targets e = t :: rest -> currentFloor e = t ->
  step (step e) =
    mk (id e) t (match rest with [] => Idle | _ :: _ => direction e end)
       false rest (totalStopsServed e + 1).
Proof.
  intros Hd Hq Hc. rewrite (step_towards e t rest Hd Hq).
  unfold moveToward. rewrite Hc, Z.ltb_irrefl.
  destruct (Z.gtb_spec t t); [lia|].
  unfold step, closeDoor. simpl. rewrite Hq, Z.eqb_refl. reflexivity.
Qed.

(** A cab at rest with an empty queue stays there, Idle. *)
Lemma rest_iter (m : nat) (e : Elevator.t) :
  targets e = [] -> doorOpen e = false -> m <> 0%nat ->
  Nat.iter m step e =
    mk (id e) (currentFloor e) Idle false [] (totalStopsServed e).
Proof.
  intros Hq Hd Hm. destruct m as [|m]; [congruence|clear Hm].
  induction m as [|m IH].
  - simpl. rewrite (step_no_targets e Hd Hq). unfold stayIdle.
    now rewrite Hq, Hd.
  - rewrite Nat.iter_succ, IH. reflexivity.
Qed.

(** Working through the queue from a closed door. *)
Lemma service (q : list Z) :
  forall e : Elevator.t,
    doorOpen e = false -> targets e = q ->
    let e' := Nat.iter (serviceTicks (currentFloor e) q) step e in
    targets e' = [] /\ doorOpen e' = false
    /\ currentFloor e' = default (currentFloor e) (last q)
    /\ totalStopsServed e' = totalStopsServed e + Z.of_nat (length q)
    /\ id e' = id e.
Proof.
  induction q as [|t rest IH]; intros e Hd Hq.
  - simpl. repeat split; auto. lia.
  - cbn [serviceTicks].
    replace (Z.to_nat (Z.abs (t - currentFloor e)) + 2
             + serviceTicks t rest)%nat
      with (serviceTicks t rest
            + (2 + Z.to_nat (Z.abs (t - currentFloor e))))%nat by lia.
    rewrite !Nat.iter_add.
    destruct (travel (Z.to_nat (Z.abs (t - currentFloor e))) e t rest Hd Hq)
      as (H1 & H2 & H3 & H4 & H5 & _); [lia|].
    set (e1 := Nat.iter (Z.to_nat (Z.abs (t - currentFloor e))) step e) in *.
    change (Nat.iter 2 step e1) with (step (step e1)).
    rewrite (dwell_two_steps e1 t rest H2 H3 H1).
    match goal with
    | |- context [Nat.iter _ step ?e2] =>
        destruct (IH e2 eq_refl eq_refl) as (G1 & G2 & G3 & G4 & G5)
    end.
    cbn [currentFloor totalStopsServed id] in *.
    repeat split; auto.
    + rewrite G3, last_cons. destruct (last rest); reflexivity.
    + rewrite G4, H4, length_cons. lia.
    + congruence.
Qed.

(** Working through the queue from any state the program can be in. *)
Lemma rest_after (e : Elevator.t) (n : nat) :
  doorFront e ->
  (serviceTicks (currentFloor e) (targets e) < n)%nat ->
  Nat.iter n step e =
    mk (id e) (default (currentFloor e) (last (targets e))) Idle false []
       (totalStopsServed e + Z.of_nat (length (targets e))).
Proof.
  assert (forall (e : Elevator.t) (n : nat),
             doorOpen e = false ->
             (serviceTicks (currentFloor e) (targets e) < n)%nat ->
             Nat.iter n step e =
               mk (id e) (default (currentFloor e) (last (targets e))) Idle
                  false [] (totalStopsServed e + Z.of_nat (length (targets e))))
    as Hclosed.
  { clear e n. intros e n Hd Hn.
    replace n with ((n - serviceTicks (currentFloor e) (targets e))
                    + serviceTicks (currentFloor e) (targets e))%nat by lia.
    rewrite Nat.iter_add.
    destruct (service (targets e) e Hd eq_refl) as (G1 & G2 & G3 & G4 & G5).
    rewrite rest_iter by (assumption || lia).
    now rewrite G3, G4, G5. }
  intros Hf Hn. destruct (doorOpen e) eqn:Hd; [|now apply Hclosed].
  specialize (Hf Hd). destruct (targets e) as [|t rest] eqn:Hq;
    [discriminate|]. injection Hf as ->.
  cbn [serviceTicks] in Hn. destruct n as [|n]; [lia|].
  rewrite Nat.iter_succ_r.
  assert (step e = mk (id e) (currentFloor e)
                      (match rest with [] => Idle | _ :: _ => direction e end)
                      false rest (totalStopsServed e + 1)) as ->.
  { rewrite (step_door_open e Hd). unfold closeDoor.
    now rewrite Hq, Z.eqb_refl. }
  rewrite Hclosed; cbn [doorOpen currentFloor targets id totalStopsServed];
    [|reflexivity|lia].
  f_equal.
  - rewrite last_cons. destruct (last rest); reflexivity.
  - rewrite length_cons. lia.
Qed.

(** X4: an elevator whose open door, if any, stands at the front target
    comes to rest: after more than [serviceTicks] ticks it is Idle with a
    closed door and an empty queue, stands at the last floor of its queue,
    and has counted one stop per queued floor. *)
Theorem elevator_comes_to_rest (e : Elevator.t) (n : nat) :
  doorFront e ->
  (serviceTicks (currentFloor e) (targets e) < n)%nat ->
  Nat.iter n step e =
    mk (id e) (default (currentFloor e) (last (targets e))) Idle false []
       (totalStopsServed e + Z.of_nat (length (targets e))).
Proof. apply rest_after. Qed.

Lemma elevator_comes_to_rest_witness :
  Nat.iter 12 step (mk 0 1 Up false [5; 8] 0) = mk 0 8 Idle false [] 2.
Proof.
  apply (elevator_comes_to_rest (mk 0 1 Up false [5; 8] 0) 12).
  - intros H. discriminate H.
  - vm_compute. lia.
Defined.

End Movement.

Lemma step_moves_one_floor_witness :
  Elevator.direction (Elevator.step (Elevator.mk 0 3 Idle false [1] 0)) = Down.
Proof.
  apply (proj2 (proj2 (step_moves_one_floor (Elevator.mk 0 3 Idle false [1] 0)))).
  vm_compute. discriminate.
Defined.

(** * Further properties of the dispatcher *)

Section BestIndex.

Import ElevatorSystem.

Lemma bestIndex_cases (req : Request) (es : list Elevator.t) :
  (bestIndex req es = -1 /\ forall e, e ∈ es -> INT_MAX <= score req e)
  \/ exists (k : nat) (chosen : Elevator.t),
       es !! k = Some chosen /\ bestIndex req es = Z.of_nat k
       /\ score req chosen < INT_MAX.
Proof.
  unfold bestIndex.
  destruct (scan_spec req es 0 (-1) INT_MAX)
    as [[-> Hall]|(k & c & Hk & -> & Hc & _)].
  - left. split; [reflexivity|exact Hall].
  - right. exists k, c. simpl. auto.
Qed.

(** X5: the index the inner loop leaves in [bestIndex] is -1 or the index
    of an elevator of the fleet, so [elevators[bestIndex]] is never out of
    range; it is -1 exactly when no elevator scores below [INT_MAX], in
    particular when there is no elevator. *)
Theorem bestIndex_in_bounds (req : Request) (es : list Elevator.t) :
  -1 <= bestIndex req es < Z.of_nat (length es)
  /\ (bestIndex req es = -1 <-> forall e, e ∈ es -> INT_MAX <= score req e).
Proof.
  destruct (bestIndex_cases req es) as [[Hb Hall]|(k & c & Hk & Hb & Hc)].
  - rewrite Hb. split; [lia|]. split; auto.
  - rewrite Hb. apply lookup_lt_Some in Hk as Hlt. split; [lia|]. split.
    + lia.
    + intros Hall. assert (c ∈ es) as Hin by (apply list_elem_of_lookup; eauto).
      specialize (Hall c Hin). lia.
Qed.

End BestIndex.

(** * Further properties of runs *)

Section RunInvariants.

Variable P : Elevator.t -> Prop.
Hypothesis P_addTarget : forall e floor, P e -> P (Elevator.addTarget e floor).
Hypothesis P_step : forall e, P e -> P (Elevator.step e).

Lemma dispatch_elevators_keep (reqs : list Request) :
  forall d,
    Forall P (ElevatorSystem.d_elevators d) ->
    Forall P (ElevatorSystem.d_elevators (ElevatorSystem.dispatch d reqs)).
Proof.
  induction reqs as [|req reqs IH]; intros d Hd; [exact Hd|].
  apply IH. unfold ElevatorSystem.assignOne. destruct (negb _); simpl; [|exact Hd].
  apply Forall_alter; [exact Hd|]. intros e _ He.
  unfold ElevatorSystem.board. auto.
Qed.

Lemma apply_elevators_keep (s : ElevatorSystem.t) (o : Op) :
  Forall P (ElevatorSystem.elevators s) ->
  Forall P (ElevatorSystem.elevators (apply s o)).
Proof.
  intros Hs. destruct o; simpl.
  - now destruct (addRequest_elevators s from to) as [-> _].
  - apply Forall_fmap.
    eapply Forall_impl; [apply dispatch_elevators_keep; exact Hs|].
    intros e. apply P_step.
Qed.

Lemma run_elevators_keep (ops : list Op) :
  forall s,
    Forall P (ElevatorSystem.elevators s) ->
    Forall P (ElevatorSystem.elevators (run ops s)).
Proof.
  induction ops as [|o ops IH]; intros s Hs; [exact Hs|].
  apply IH, apply_elevators_keep, Hs.
Qed.

End RunInvariants.

Lemma new_elevators (floors numElevators : Z) (e : Elevator.t) :
  e ∈ ElevatorSystem.elevators (ElevatorSystem.new floors numElevators) ->
  exists i, e = Elevator.new i 0.
Proof.
  simpl. intros He. apply list_elem_of_fmap in He as (i & -> & _). now exists i.
Qed.

(** X6: whatever calls are made on a freshly built system, no elevator
    queue ever holds the same floor twice in a row. *)
Theorem queues_never_repeat (floors numElevators : Z) (ops : list Op)
    (e : Elevator.t) :
  e ∈ ElevatorSystem.elevators
        (run ops (ElevatorSystem.new floors numElevators)) ->
  noRepeat (Elevator.targets e).
Proof.
  revert e. apply Forall_forall.
  apply (run_elevators_keep (fun e => noRepeat (Elevator.targets e))).
  - intros e floor. apply addTarget_noRepeat.
  - intros e. apply step_noRepeat.
  - apply Forall_forall. intros e He.
    apply new_elevators in He as [i ->]. exact I.
Qed.

Lemma queues_never_repeat_witness :
  noRepeat [5; 8; 5].
Proof.
  apply (queues_never_repeat 10 1
           [SubmitRequest 5 8; SubmitRequest 8 5; Tick; Tick; Tick; Tick; Tick]
           (Elevator.mk 0 5 Up false [5; 8; 5] 0)).
  vm_compute. apply list_elem_of_here.
Defined.

Lemma run_doorFront (floors numElevators : Z) (ops : list Op) :
  Forall doorFront
    (ElevatorSystem.elevators (run ops (ElevatorSystem.new floors numElevators))).
Proof.
  apply (run_elevators_keep doorFront).
  - intros e floor. apply addTarget_doorFront.
  - intros e _. apply step_doorFront.
  - apply Forall_forall. intros e He.
    apply new_elevators in He as [i ->]. intros H. discriminate H.
Qed.

(** * The system without new requests *)

Lemma assignRequests_no_pending (s : ElevatorSystem.t) :
  ElevatorSystem.pendingRequests s = [] -> ElevatorSystem.assignRequests s = s.
Proof.
  intros Hp. unfold ElevatorSystem.assignRequests. rewrite Hp. simpl.
  destruct s; simpl in *. now subst.
Qed.

Lemma ticks_no_pending (n : nat) :
  forall s,
    ElevatorSystem.pendingRequests s = [] ->
    ticks n s =
      ElevatorSystem.mk (ElevatorSystem.numFloors s)
        (Nat.iter n Elevator.step <$> ElevatorSystem.elevators s) []
        (ElevatorSystem.currentTime s + Z.of_nat n)
        (ElevatorSystem.totalRequestsProcessed s).
Proof.
  unfold ticks. induction n as [|n IH]; intros s Hp.
  - simpl. rewrite list_fmap_id, Z.add_0_r. destruct s; simpl in *. now subst.
  - rewrite Nat.iter_succ, IH by exact Hp.
    unfold ElevatorSystem.step, ElevatorSystem.assignRequests. simpl. f_equal.
    + rewrite <- list_fmap_compose. reflexivity.
    + lia.
Qed.

(** X7: once the backlog is empty and as long as nothing is submitted,
    the system comes to rest.  If every open door stands at its front target
    and every elevator needs fewer than [n] ticks for its queue, then after
    [n] ticks every elevator is Idle with a closed door and an empty queue,
    at the last floor it was sent to, with one more stop counted per queued
    floor; only the clock has moved otherwise. *)
Theorem system_comes_to_rest (s : ElevatorSystem.t) (n : nat) :
  ElevatorSystem.pendingRequests s = [] ->
  Forall doorFront (ElevatorSystem.elevators s) ->
  Forall (fun e => (serviceTicks (Elevator.currentFloor e) (Elevator.targets e)
                    < n)%nat)
         (ElevatorSystem.elevators s) ->
  ticks n s =
    ElevatorSystem.mk (ElevatorSystem.numFloors s)
      ((fun e =>
          Elevator.mk (Elevator.id e)
            (default (Elevator.currentFloor e) (last (Elevator.targets e)))
            Idle false []
            (Elevator.totalStopsServed e
             + Z.of_nat (length (Elevator.targets e))))
         <$> ElevatorSystem.elevators s)
      [] (ElevatorSystem.currentTime s + Z.of_nat n)
      (ElevatorSystem.totalRequestsProcessed s)
  /\ Forall (fun e => Elevator.isIdle e = true)
            (ElevatorSystem.elevators (ticks n s)).
Proof.
  intros Hp Hf Hn.
  assert (Nat.iter n Elevator.step <$> ElevatorSystem.elevators s
          = (fun e =>
               Elevator.mk (Elevator.id e)
                 (default (Elevator.currentFloor e) (last (Elevator.targets e)))
                 Idle false []
                 (Elevator.totalStopsServed e
                  + Z.of_nat (length (Elevator.targets e))))
              <$> ElevatorSystem.elevators s) as Heq.
  { apply list_fmap_ext. intros i e Hi.
    apply rest_after.
    - exact (proj1 (Forall_lookup _ _) Hf i e Hi).
    - exact (proj1 (Forall_lookup _ _) Hn i e Hi). }
  rewrite (ticks_no_pending n s Hp), Heq. split; [reflexivity|].
  simpl. apply Forall_fmap, Forall_forall. intros e _. reflexivity.
Qed.

Lemma system_comes_to_rest_witness :
  Forall (fun e => Elevator.isIdle e = true)
         (ElevatorSystem.elevators (ticks 12 (ticks 1 scenario))).
Proof.
  apply (system_comes_to_rest (ticks 1 scenario) 12).
  - reflexivity.
  - vm_compute. repeat constructor; intros H; discriminate H.
  - vm_compute. repeat constructor.
Defined.

(** * Bookkeeping along a run *)

Lemma dispatch_conserve (reqs : list Request) :
  forall d,
    ElevatorSystem.d_totalRequestsProcessed (ElevatorSystem.dispatch d reqs)
    + Z.of_nat (length (ElevatorSystem.d_stillPending
                          (ElevatorSystem.dispatch d reqs)))
    = ElevatorSystem.d_totalRequestsProcessed d
      + Z.of_nat (length (ElevatorSystem.d_stillPending d))
      + Z.of_nat (length reqs).
Proof.
  induction reqs as [|req reqs IH]; intros d; [simpl; lia|].
  change (ElevatorSystem.dispatch d (req :: reqs))
    with (ElevatorSystem.dispatch (ElevatorSystem.assignOne d req) reqs).
  rewrite IH, length_cons. unfold ElevatorSystem.assignOne.
  destruct (negb _); simpl; [lia|]. rewrite length_app. simpl length. lia.
Qed.

Lemma countIf_cons {A : Type} (f : A -> bool) (x : A) (l : list A) :
  countIf f (x :: l) = (if f x then 1 else 0) + countIf f l.
Proof.
  unfold countIf. rewrite filter_cons. destruct (f x) eqn:Hx.
  - rewrite decide_True by reflexivity. rewrite length_cons. lia.
  - rewrite decide_False by discriminate. lia.
Qed.

Lemma addRequest_accepted (s : ElevatorSystem.t) (from to : Z) :
  ElevatorSystem.addRequest s from to =
    if accepted (ElevatorSystem.numFloors s) (SubmitRequest from to)
    then (Added,
          ElevatorSystem.mk (ElevatorSystem.numFloors s)
            (ElevatorSystem.elevators s)
            (ElevatorSystem.pendingRequests s
               ++ [mkRequest from to (ElevatorSystem.currentTime s)])
            (ElevatorSystem.currentTime s)
            (ElevatorSystem.totalRequestsProcessed s))
    else (if (from <? 0) || (from >=? ElevatorSystem.numFloors s)
             || (to <? 0) || (to >=? ElevatorSystem.numFloors s)
          then OutOfRange else SameFloor, s).
Proof.
  unfold ElevatorSystem.addRequest, accepted.
  destruct (Z.ltb_spec from 0); destruct (Z.leb_spec 0 from); try lia;
    destruct (Z.geb_spec from (ElevatorSystem.numFloors s));
    destruct (Z.ltb_spec from (ElevatorSystem.numFloors s)); try lia;
    destruct (Z.ltb_spec to 0); destruct (Z.leb_spec 0 to); try lia;
    destruct (Z.geb_spec to (ElevatorSystem.numFloors s));
    destruct (Z.ltb_spec to (ElevatorSystem.numFloors s)); try lia;
    simpl; try reflexivity.
  destruct (from =? to); reflexivity.
Qed.

Lemma run_accounts (ops : list Op) (s : ElevatorSystem.t) :
  ElevatorSystem.currentTime (run ops s)
  = ElevatorSystem.currentTime s + countIf isTick ops
  /\ ElevatorSystem.totalRequestsProcessed (run ops s)
     + Z.of_nat (length (ElevatorSystem.pendingRequests (run ops s)))
     = ElevatorSystem.totalRequestsProcessed s
       + Z.of_nat (length (ElevatorSystem.pendingRequests s))
       + countIf (accepted (ElevatorSystem.numFloors s)) ops.
Proof.
  revert s. induction ops as [|o ops IH]; intros s.
  - unfold countIf. simpl. split; lia.
  - change (run (o :: ops) s) with (run ops (apply s o)).
    destruct (IH (apply s o)) as [H1 H2].
    rewrite H1, H2, apply_numFloors, !countIf_cons. clear IH H1 H2.
    destruct o as [from to|].
    + cbn [apply isTick]. rewrite addRequest_accepted.
      destruct (accepted _ _); simpl; [|split; lia].
      rewrite length_app. simpl length. split; lia.
    + cbn [apply isTick accepted].
      unfold ElevatorSystem.step, ElevatorSystem.assignRequests. simpl.
      match goal with
      | |- context [ElevatorSystem.dispatch ?d _] =>
          pose proof (dispatch_conserve (ElevatorSystem.pendingRequests s) d)
            as Hc
      end.
      simpl in Hc. split; lia.
Qed.

(** X8: the clock counts the ticks, and no request is lost or invented:
    after any calls, [currentTime] has grown by the number of [step] calls,
    and processed plus pending requests have grown by the number of
    [addRequest] calls that were accepted. *)
Theorem run_clock_and_conservation (ops : list Op) (s : ElevatorSystem.t) :
  ElevatorSystem.currentTime (run ops s)
  = ElevatorSystem.currentTime s + countIf isTick ops
  /\ ElevatorSystem.totalRequestsProcessed (run ops s)
     + Z.of_nat (length (ElevatorSystem.pendingRequests (run ops s)))
     = ElevatorSystem.totalRequestsProcessed s
       + Z.of_nat (length (ElevatorSystem.pendingRequests s))
       + countIf (accepted (ElevatorSystem.numFloors s)) ops.
Proof. apply run_accounts. Qed.

(** X9: elevators are never added, removed or reordered: after any calls on
    a freshly built system the fleet has the size it was built with, and the
    elevator at index [i] has id [i]. *)
Theorem fleet_is_fixed (floors numElevators : Z) (ops : list Op) :
  length (ElevatorSystem.elevators
            (run ops (ElevatorSystem.new floors numElevators)))
  = Z.to_nat numElevators
  /\ forall (i : nat) (e : Elevator.t),
       ElevatorSystem.elevators
         (run ops (ElevatorSystem.new floors numElevators)) !! i = Some e ->
       Elevator.id e = Z.of_nat i.
Proof.
  destruct (run_served ops (ElevatorSystem.new floors numElevators))
    as [Hs _].
  split.
  - rewrite <- (Forall2_length _ _ _ Hs). simpl.
    now rewrite length_fmap, length_seqZ.
  - intros i e Hi.
    destruct (Forall2_lookup_r _ _ _ _ _ Hs Hi) as (e0 & H0 & Hid & _).
    rewrite Hid. simpl in H0. rewrite list_lookup_fmap in H0.
    destruct (seqZ 0 numElevators !! i) as [j|] eqn:Hj; [|discriminate].
    apply lookup_seqZ in Hj as [-> _]. simpl in H0. injection H0 as <-.
    simpl. lia.
Qed.

Lemma fleet_is_fixed_witness :
  Elevator.id (Elevator.mk 1 0 Idle false [] 0) = Z.of_nat 1.
Proof.
  apply (proj2 (fleet_is_fixed 10 2 [SubmitRequest 5 8; Tick; Tick])).
  reflexivity.
Defined.

(** X10: a system built without elevators (a count of 0 or below) never
    processes a request: the fleet stays empty and the counter stays at 0,
    so every accepted request is still pending. *)
Theorem empty_fleet_keeps_backlog (floors numElevators : Z) (ops : list Op) :
  numElevators <= 0 ->
  let s := run ops (ElevatorSystem.new floors numElevators) in
  ElevatorSystem.elevators s = []
  /\ ElevatorSystem.totalRequestsProcessed s = 0
  /\ Z.of_nat (length (ElevatorSystem.pendingRequests s))
     = countIf (accepted floors) ops.
Proof.
  intros Hn s.
  assert (forall ops s0,
             ElevatorSystem.elevators s0 = [] ->
             ElevatorSystem.elevators (run ops s0) = []
             /\ ElevatorSystem.totalRequestsProcessed (run ops s0)
                = ElevatorSystem.totalRequestsProcessed s0) as Hkeep.
  { clear. induction ops as [|o ops IH]; intros s0 H0; [now split|].
    change (run (o :: ops) s0) with (run ops (apply s0 o)).
    assert (ElevatorSystem.elevators (apply s0 o) = []
            /\ ElevatorSystem.totalRequestsProcessed (apply s0 o)
               = ElevatorSystem.totalRequestsProcessed s0) as [H1 H2].
    { destruct o as [from to|]; cbn [apply].
      - destruct (addRequest_elevators s0 from to) as [-> ->]. now split.
      - unfold ElevatorSystem.step, ElevatorSystem.assignRequests. simpl.
        rewrite dispatch_empty_fleet by exact H0. now split. }
    destruct (IH _ H1) as [H3 H4]. split; [exact H3|congruence]. }
  assert (ElevatorSystem.elevators (ElevatorSystem.new floors numElevators) = [])
    as H0.
  { simpl. apply length_zero_iff_nil. rewrite length_fmap, length_seqZ. lia. }
  destruct (Hkeep ops _ H0) as [H1 H2].
  destruct (run_accounts ops
              (ElevatorSystem.new floors numElevators)) as [_ H3].
  subst s. simpl in H2, H3. split; [exact H1|]. split; [exact H2|lia].
Qed.

Lemma empty_fleet_keeps_backlog_witness :
  ElevatorSystem.pendingRequests
    (run [SubmitRequest 5 8; Tick; Tick] (ElevatorSystem.new 10 0))
  = [mkRequest 5 8 0].
Proof.
  pose proof (empty_fleet_keeps_backlog 10 0 [SubmitRequest 5 8; Tick; Tick])
    as H.
  destruct H as (_ & _ & _); [lia|]. reflexivity.
Defined.

(** * Stops and processed requests *)

Lemma pushed_step (e : Elevator.t) :
  doorFront e -> pushed (Elevator.step e) = pushed e.
Proof.
  unfold pushed, Elevator.getQueueSize, Elevator.step. intros Hf.
  destruct (Elevator.doorOpen e) eqn:Hd.
  - specialize (Hf Hd). destruct (Elevator.targets e) as [|t q] eqn:Hq;
      [discriminate|]. injection Hf as ->.
    unfold Elevator.closeDoor. rewrite Hq, Z.eqb_refl.
    cbn [Elevator.targets Elevator.totalStopsServed]. rewrite length_cons. lia.
  - destruct (Elevator.targets e) as [|t q] eqn:Hq.
    + cbn [Elevator.stayIdle Elevator.targets Elevator.totalStopsServed].
      now rewrite Hq.
    + unfold Elevator.moveToward.
      destruct (Elevator.currentFloor e <? t);
        [|destruct (Elevator.currentFloor e >? t)];
        cbn [Elevator.targets Elevator.totalStopsServed]; now rewrite Hq.
Qed.

Lemma pushed_board (req : Request) (e : Elevator.t) :
  fromFloor req <> toFloor req ->
  pushed e + 1 <= pushed (ElevatorSystem.board req e) <= pushed e + 2.
Proof.
  intros Hne. unfold pushed, Elevator.getQueueSize.
  destruct (board_queued req e) as [(_ & _ & _ & _ & ->) _].
  rewrite (board_targets req e Hne).
  case_decide; rewrite length_app; simpl length; lia.
Qed.

Lemma totalPushed_alter (f : Elevator.t -> Elevator.t) (es : list Elevator.t) :
  forall (k : nat) (c : Elevator.t),
    es !! k = Some c ->
    totalPushed (alter f k es) = totalPushed es + pushed (f c) - pushed c.
Proof.
  induction es as [|e es IH]; intros k c Hk; [discriminate|].
  destruct k as [|k].
  - injection Hk as ->.
    change (pushed (f c) + totalPushed es
            = pushed c + totalPushed es + pushed (f c) - pushed c). lia.
  - change (pushed e + totalPushed (alter f k es)
            = pushed e + totalPushed es + pushed (f c) - pushed c).
    rewrite (IH k c Hk). lia.
Qed.

Lemma totalPushed_step (es : list Elevator.t) :
  Forall doorFront es -> totalPushed (Elevator.step <$> es) = totalPushed es.
Proof.
  induction 1 as [|e es He _ IH]; [reflexivity|].
  change (pushed (Elevator.step e) + totalPushed (Elevator.step <$> es)
          = pushed e + totalPushed es).
  rewrite IH, (pushed_step e He). reflexivity.
Qed.

Lemma assignOne_pushed (d : ElevatorSystem.Dispatch) (req : Request) :
  fromFloor req <> toFloor req ->
  ElevatorSystem.d_totalRequestsProcessed (ElevatorSystem.assignOne d req)
  - ElevatorSystem.d_totalRequestsProcessed d
  <= totalPushed (ElevatorSystem.d_elevators (ElevatorSystem.assignOne d req))
     - totalPushed (ElevatorSystem.d_elevators d)
  <= 2 * (ElevatorSystem.d_totalRequestsProcessed
            (ElevatorSystem.assignOne d req)
          - ElevatorSystem.d_totalRequestsProcessed d).
Proof.
  intros Hne.
  destruct (bestIndex_cases req (ElevatorSystem.d_elevators d))
    as [[Hb _]|(k & c & Hk & Hb & _)].
  - rewrite (assignOne_none d req Hb). simpl. lia.
  - rewrite (assignOne_chosen d req k Hb). simpl.
    rewrite (totalPushed_alter _ _ k c Hk).
    pose proof (pushed_board req c Hne). lia.
Qed.

Lemma dispatch_pushed (reqs : list Request) :
  forall d,
    Forall (fun r => fromFloor r <> toFloor r) reqs ->
    ElevatorSystem.d_totalRequestsProcessed (ElevatorSystem.dispatch d reqs)
    - ElevatorSystem.d_totalRequestsProcessed d
    <= totalPushed (ElevatorSystem.d_elevators (ElevatorSystem.dispatch d reqs))
       - totalPushed (ElevatorSystem.d_elevators d)
    <= 2 * (ElevatorSystem.d_totalRequestsProcessed
              (ElevatorSystem.dispatch d reqs)
            - ElevatorSystem.d_totalRequestsProcessed d).
Proof.
  induction reqs as [|req reqs IH]; intros d Hr; [simpl; lia|].
  apply Forall_cons in Hr as [Hreq Hr].
  change (ElevatorSystem.dispatch d (req :: reqs))
    with (ElevatorSystem.dispatch (ElevatorSystem.assignOne d req) reqs).
  pose proof (assignOne_pushed d req Hreq).
  pose proof (IH (ElevatorSystem.assignOne d req) Hr). lia.
Qed.

Lemma dispatch_stillPending_keep (Q : Request -> Prop) (reqs : list Request) :
  forall d,
    Forall Q reqs -> Forall Q (ElevatorSystem.d_stillPending d) ->
    Forall Q (ElevatorSystem.d_stillPending (ElevatorSystem.dispatch d reqs)).
Proof.
  induction reqs as [|req reqs IH]; intros d Hr Hp; [exact Hp|].
  apply Forall_cons in Hr as [Hreq Hr]. apply IH; [exact Hr|].
  unfold ElevatorSystem.assignOne. destruct (negb _); simpl; [exact Hp|].
  apply Forall_app. split; [exact Hp|]. now constructor.
Qed.

Lemma apply_accounted (s : ElevatorSystem.t) (o : Op) :
  accounted s -> accounted (apply s o).
Proof.
  intros (Hf & Hp & Hc). destruct o as [from to|]; cbn [apply].
  - rewrite addRequest_accepted.
    destruct (accepted _ _) eqn:Ha; [|now split].
    split; [exact Hf|]. split; [|exact Hc]. simpl.
    apply Forall_app. split; [exact Hp|]. constructor; [|constructor].
    simpl. unfold accepted in Ha. apply andb_true_iff in Ha as [_ Ha].
    apply negb_true_iff, Z.eqb_neq in Ha. exact Ha.
  - unfold accounted, ElevatorSystem.step, ElevatorSystem.assignRequests.
    simpl.
    match goal with
    | |- context [ElevatorSystem.dispatch ?d _] =>
        pose proof (dispatch_pushed (ElevatorSystem.pendingRequests s) d Hp)
          as Hd;
        pose proof (dispatch_elevators_keep doorFront addTarget_doorFront
                      (ElevatorSystem.pendingRequests s) d Hf) as Hf';
        pose proof (dispatch_stillPending_keep _
                      (ElevatorSystem.pendingRequests s) d Hp
                      (Forall_nil_2 _)) as Hp'
    end.
    simpl in Hd. split; [|split; [exact Hp'|]].
    + apply Forall_fmap, Forall_forall. intros e _. apply step_doorFront.
    + rewrite (totalPushed_step _ Hf'). lia.
Qed.

(** X11: stops are accounted for.  After any calls on a freshly built
    system, the stops served plus the floors still queued, summed over the
    elevators, are at least the number of processed requests and at most
    twice that number. *)
Theorem stops_accounted (floors numElevators : Z) (ops : list Op) :
  let s := run ops (ElevatorSystem.new floors numElevators) in
  ElevatorSystem.totalRequestsProcessed s
  <= totalPushed (ElevatorSystem.elevators s)
  <= 2 * ElevatorSystem.totalRequestsProcessed s.
Proof.
  assert (forall ops s, accounted s -> accounted (run ops s)) as Hrun.
  { clear. induction ops as [|o ops IH]; intros s Hs; [exact Hs|].
    apply IH, apply_accounted, Hs. }
  assert (accounted (ElevatorSystem.new floors numElevators)) as H0.
  { split; [|split; [constructor|]].
    - apply Forall_forall. intros e He.
      apply new_elevators in He as [i ->]. intros H. discriminate H.
    - assert (forall l : list Z,
                 totalPushed ((fun i => Elevator.new i 0) <$> l) = 0) as Hz.
      { induction l as [|i l IH]; [reflexivity|].
        change (pushed (Elevator.new i 0)
                + totalPushed ((fun i => Elevator.new i 0) <$> l) = 0).
        rewrite IH. reflexivity. }
      simpl. rewrite Hz. lia. }
  exact (proj2 (proj2 (Hrun ops _ H0))).
Qed.

(** * The program as started by [main] *)

Lemma chooseFloors_range (input : option Z) : 5 <= chooseFloors input <= 20.
Proof.
  unfold chooseFloors. destruct input as [floors|]; [|lia].
  destruct (Z.ltb_spec floors 5); destruct (Z.gtb_spec floors 20); simpl; lia.
Qed.

Lemma chooseElevators_range (input : option Z) :
  1 <= chooseElevators input <= 5.
Proof.
  unfold chooseElevators. destruct input as [n|]; [|lia].
  destruct (Z.ltb_spec n 1); destruct (Z.gtb_spec n 5); simpl; lia.
Qed.

Lemma run_app (ops1 ops2 : list Op) (s : ElevatorSystem.t) :
  run (ops1 ++ ops2) s = run ops2 (run ops1 s).
Proof. unfold run. apply fold_left_app. Qed.

Lemma handleCommand_run (command : ascii) (from to : Z)
    (s : ElevatorSystem.t) :
  exists ops,
    fst (handleCommand command from to s) = run ops s
    /\ (length ops <= 5)%nat.
Proof.
  unfold handleCommand.
  destruct (_ || _); [exists [SubmitRequest from to]; simpl; split; [reflexivity|lia]|].
  destruct (_ || _); [exists [Tick]; simpl; split; [reflexivity|lia]|].
  destruct (_ || _);
    [exists [Tick; Tick; Tick; Tick; Tick]; simpl; split; [reflexivity|lia]|].
  destruct (_ || _); exists []; simpl; split; (reflexivity || lia).
Qed.

(** X12: the menu loop only ever drives the system through [addRequest]
    and [step]: whatever commands are typed, the state reached is the result
    of a sequence of such calls, at most five per command ('a' being five
    steps), and a command other than r, s, a (in either case) leaves the
    system as it is. *)
Theorem session_is_a_run (cmds : list (ascii * Z * Z)) (s : ElevatorSystem.t) :
  (exists ops,
     session cmds s = run ops s /\ (length ops <= 5 * length cmds)%nat)
  /\ (forall command from to,
        (Ascii.eqb command "r" || Ascii.eqb command "R"
         || Ascii.eqb command "s" || Ascii.eqb command "S"
         || Ascii.eqb command "a" || Ascii.eqb command "A")%char = false ->
        fst (handleCommand command from to s) = s).
Proof.
  split.
  - revert s. induction cmds as [|[[command from] to] cmds IH]; intros s.
    + exists []. split; [reflexivity|simpl; lia].
    + cbn [session].
      destruct (handleCommand_run command from to s) as (ops1 & E1 & L1).
      destruct (snd (handleCommand command from to s)).
      * destruct (IH (fst (handleCommand command from to s)))
          as (ops2 & E2 & L2).
        exists (ops1 ++ ops2). rewrite run_app, <- E1, E2.
        split; [reflexivity|]. rewrite length_app, length_cons. lia.
      * exists ops1. split; [exact E1|]. rewrite length_cons. lia.
  - intros command from to H. unfold handleCommand.
    repeat (apply orb_false_elim in H as [H ?]).
    repeat match goal with
           | E : Ascii.eqb _ _ = false |- _ => rewrite E; clear E
           end.
    simpl. destruct (_ || _); reflexivity.
Qed.

Lemma session_is_a_run_witness :
  fst (handleCommand "x" 1 2 scenario) = scenario.
Proof.
  apply (proj2 (session_is_a_run [] scenario)). reflexivity.
Defined.

Lemma run_length (ops : list Op) (s : ElevatorSystem.t) :
  length (ElevatorSystem.elevators (run ops s))
  = length (ElevatorSystem.elevators s).
Proof.
  destruct (run_served ops s) as [Hs _].
  symmetry. exact (Forall2_length _ _ _ Hs).
Qed.

(** X13: the system [main] builds has 5 to 20 floors and 1 to 5 elevators,
    whatever was typed at the two prompts, and keeps them: after any calls
    the fleet has the chosen size and every elevator stands on a floor of
    the building. *)
Theorem main_system_well_formed (floorsInput elevatorsInput : option Z)
    (ops : list Op) :
  let s := run ops (mainSystem floorsInput elevatorsInput) in
  5 <= ElevatorSystem.numFloors s <= 20
  /\ (1 <= length (ElevatorSystem.elevators s) <= 5)%nat
  /\ Forall (fun e => 0 <= Elevator.currentFloor e
                      <= ElevatorSystem.numFloors s - 1)
            (ElevatorSystem.elevators s).
Proof.
  intros s. subst s. unfold mainSystem.
  pose proof (chooseFloors_range floorsInput) as Hf.
  pose proof (chooseElevators_range elevatorsInput) as He.
  rewrite run_numFloors, run_length. simpl.
  rewrite length_fmap, length_seqZ. split; [exact Hf|]. split; [lia|].
  destruct (run_valid ops _ (new_valid (chooseFloors floorsInput)
                               (chooseElevators elevatorsInput) ltac:(lia)))
    as [Hv _].
  rewrite run_numFloors in Hv. simpl in Hv.
  eapply Forall_impl; [exact Hv|]. intros e [Hc _]. exact Hc.
Qed.

(** X14: in the program as started by [main], a tick leaves no request
    pending: after fewer than a billion calls, the backlog is empty after
    every [step], so each accepted request is assigned in the first tick that
    follows its submission. *)
Theorem main_backlog_cleared (floorsInput elevatorsInput : option Z)
    (ops : list Op) :
  Z.of_nat (length ops) < 1000000000 ->
  ElevatorSystem.pendingRequests
    (ElevatorSystem.step (run ops (mainSystem floorsInput elevatorsInput)))
  = [].
Proof.
  intros Hlen. unfold mainSystem.
  pose proof (chooseFloors_range floorsInput) as Hf.
  pose proof (chooseElevators_range elevatorsInput) as He.
  set (s := run ops (ElevatorSystem.new (chooseFloors floorsInput)
                       (chooseElevators elevatorsInput))).
  assert (ElevatorSystem.elevators s <> []) as Hne.
  { intros Hnil. apply (f_equal length) in Hnil. subst s.
    rewrite run_length in Hnil. simpl in Hnil.
    rewrite length_fmap, length_seqZ in Hnil. lia. }
  assert (belowSentinel (ElevatorSystem.elevators s)
            (ElevatorSystem.pendingRequests s)) as Hb.
  { subst s. apply run_belowSentinel; [lia|]. unfold INT_MAX. lia. }
  unfold ElevatorSystem.step, ElevatorSystem.assignRequests. simpl.
  match goal with
  | |- context [ElevatorSystem.dispatch ?d _] =>
      destruct (dispatch_all_assigned (ElevatorSystem.pendingRequests s) d)
        as [E _]; [exact Hne|exact Hb|exact E]
  end.
Qed.

Lemma main_backlog_cleared_witness :
  ElevatorSystem.pendingRequests
    (ElevatorSystem.step
       (run [SubmitRequest 5 8; SubmitRequest 2 0]
            (mainSystem (Some 3) None)))
  = [].
Proof.
  apply (main_backlog_cleared (Some 3) None
           [SubmitRequest 5 8; SubmitRequest 2 0]).
  simpl. lia.
Defined.

(** * Rendering of directions *)

(** X15: [directionToString] gives different names to different
    directions, and the letter shown in the building view is the first
    character of that name. *)
Theorem directionToString_injective :
  (forall d1 d2, directionToString d1 = directionToString d2 -> d1 = d2)
  /\ (forall d, String.get 0 (directionToString d) = Some (dirChar d)).
Proof.
  split.
  - intros [] []; simpl; intros H; (reflexivity || discriminate H).
  - intros []; reflexivity.
Qed.

Lemma directionToString_injective_witness : Up = Up.
Proof.
  apply (proj1 directionToString_injective Up Up). reflexivity.
Defined.

(** * The backlog, request by request *)

Section Backlog.

Import ElevatorSystem.









End Backlog.






